(** * The question-generation worker: [worker.handler]

    A shallow embedding of [src/worker/worker.py] and of the enumerations of
    [src/core/enums/enum.py], with the properties of the written
    specification stated over it.

    The handler is sequential Python that mutates a handful of local
    variables and talks to four collaborators (object storage, the chat
    model, the Discord notifier and the database).  It is embedded as a
    state-and-exception monad over a record of the handler's local
    variables; every call to a collaborator is recorded, in order, in the
    [trace] field, and the answers of the chat model are supplied by the
    environment, one per call.

    What the embedding takes for granted:
    - the storage, notifier and database calls return normally (the source
      does not handle their failures; they would end the run);
    - the elements of a question response are JSON objects with string
      values, and so is the summary response;
    - the wall-clock parameters of the insert and the [print] calls are
      left out;
    - a statement is persisted when a [commit] follows it on the
      connection. *)

From Stdlib Require Import Ascii String.
From stdpp Require Import base decidable option list gmap strings.

Local Open Scope nat_scope.

(** ** Python strings

    A [str] is modelled as a Rocq [string]; only slicing with non-negative
    bounds, [len], [+] and [join] are used by the handler. *)

(** [s[:n]] *)
Fixpoint str_take (n : nat) (s : string) : string :=
  match n, s with
  | S n', String c s' => String c (str_take n' s')
  | _, _ => EmptyString
  end.

(** [s[n:]] *)
Fixpoint str_drop (n : nat) (s : string) : string :=
  match n, s with
  | S n', String _ s' => str_drop n' s'
  | _, _ => s
  end.

(** [s[i:j]] for [0 <= i]: Python clamps both bounds to [len(s)] and yields
    the empty string when [j <= i]. *)
Definition str_slice (i j : nat) (s : string) : string :=
  str_take (j - i) (str_drop i s).

(** [sep.join(l)] *)
Definition str_join (sep : string) (l : list string) : string :=
  String.concat sep l.

(** [''.join(l)], written as the iterated [+]. *)
Definition str_concat (l : list string) : string :=
  foldr String.append EmptyString l.

(** [c * n] for a one-character string [c]; used to build test documents. *)
Fixpoint str_repeat (c : ascii) (n : nat) : string :=
  match n with
  | 0 => EmptyString
  | S n' => String c (str_repeat c n')
  end.

(** [range(start, stop, step)] for a positive [step], unrolled as the
    iteration it stands for.  [fuel] bounds the number of iterations;
    [stop - start] of them always suffice (lemma [slice_all_from]). *)
Fixpoint range_from (fuel i stop step : nat) : list nat :=
  match fuel with
  | 0 => []
  | S fuel' =>
      if i <? stop then i :: range_from fuel' (i + step) stop step else []
  end.

(** [list(range(start, stop, step))]; a zero step raises [ValueError]. *)
Definition py_range (start stop step : nat) : option (list nat) :=
  if step =? 0 then None else Some (range_from stop start stop step).

(** ** The chunker (worker.py, lines 39-42)

<<
    chunks: list[str] = []
    for i in range(0, len(content), CHUNK_SIZE):
        chunks.append(content[i : i + CHUNK_SIZE])
>>
*)

Definition CHUNK_SIZE : nat := 1100.

Definition slice_all (size : nat) (content : string) (starts : list nat)
  : list string :=
  map (fun i => str_slice i (i + size) content) starts.

(** The loop for an arbitrary chunk size; [None] is the [ValueError] that
    [range] raises for a zero step. *)
Definition chunker (size : nat) (content : string) : option (list string) :=
  starts ← py_range 0 (String.length content) size;
  Some (slice_all size content starts).

(** The chunk list of the handler, where the size is the constant 1100. *)
Definition chunks_of (content : string) : list string :=
  slice_all CHUNK_SIZE content
    (range_from (String.length content) 0 (String.length content) CHUNK_SIZE).


(** ** Enumerations (core/enums/enum.py) *)

Inductive LLMErrorType := INVALID_JSON_FORMAT | GENERAL.

Inductive SubscriptionPlanType := FREE | PRO.

Definition SubscriptionPlanType_value (p : SubscriptionPlanType) : string :=
  match p with FREE => "FREE" | PRO => "PRO" end.

Inductive QuizQuestionNum :=
  FREE_PLAN_QUIZ_QUESTION_NUM | PRO_PLAN_QUIZ_QUESTION_NUM.

Definition QuizQuestionNum_value (q : QuizQuestionNum) : nat :=
  match q with
  | FREE_PLAN_QUIZ_QUESTION_NUM => 5
  | PRO_PLAN_QUIZ_QUESTION_NUM => 10
  end.

Inductive DocumentStatus :=
  UNPROCESSED | PROCESSED | COMPLETELY_FAILED | PARTIAL_SUCCESS.

Global Instance DocumentStatus_eq_dec : EqDecision DocumentStatus.
Proof. solve_decision. Defined.

(** ** Collaborators

    The storage, model, notifier and database clients live outside
    [worker.py].  What the handler asks of them is recorded as events; what
    they answer is part of the [world]. *)

(** A parsed element of the question response, and the parsed summary
    response: JSON objects, read as Python dictionaries with string values
    ([prev_questions] is annotated [list[str]] in the source). *)
Abbreviation q_set := (gmap string string).

(** The two prompt templates with their placeholders filled in. *)
Inductive prompt :=
  | GenerateQuestions (note prev_questions : string)
  | GenerateSummary (note : string).

Inductive task := QuestionGeneration | SummaryGeneration.

(** The [error_message] argument of [report_llm_error]; the third message
    interpolates the whole response. *)
Inductive error_message :=
  | NotJsonDecodable
  | FailedToGenerateQuestions
  | MissingQuestionAnswerKeys (resp_dict : list q_set).

(** The three statements sent to [execute_query], with their parameters.
    The [created_at]/[updated_at] parameters of the insert are wall-clock
    readings and are left out. *)
Inductive query :=
  | InsertQuestion (question answer : string) (document_id : Z)
      (delivered_count : nat)
  | UpdateDocumentStatus (status : DocumentStatus) (id : Z)
  | UpdateDocumentSummary (summary : string) (id : Z).

Inductive event :=
  | PredictJson (messages : prompt)
  | ReportLLMError (t : task) (error_type : LLMErrorType)
      (document_content : string) (llm_response : option string)
      (msg : error_message)
  | ExecuteQuery (q : query)
  | Commit
  | Close.

(** What [chat_llm.predict_json] does on one call: return the parsed
    response, raise [InvalidLLMJsonResponseError] carrying the raw text, or
    raise anything else. *)
Inductive llm_result (A : Type) :=
  | Parsed (v : A)
  | NotJson (llm_response : string)
  | Failed.
Arguments Parsed {A} v.
Arguments NotJson {A} llm_response.
Arguments Failed {A}.

Record world := {
  (** [s3_client.get_object(key).decode_content_str()] *)
  s3_object : string → string;
  (** the answer to the [n]-th question-generation call, counted from 0 *)
  question_llm : nat → llm_result (list q_set);
  (** the answer to the summary call *)
  summary_llm : llm_result q_set;
}.

(** ** Exceptions and the handler's state *)

Inductive exn :=
  | KeyError (key : string)
  | ValueError (msg : string)
  | InvalidLLMJsonResponseError (llm_response : string)
  | OtherError.

(** The local variables of [handler] that are assigned after their
    initialisation, the number of question-generation calls made so far, and
    the calls made to the collaborators, oldest first. *)
Record state := {
  free_plan_question_expose_count : nat;
  total_generated_question_count : nat;
  success_at_least_once : bool;
  failed_at_least_once : bool;
  prev_questions : list string;
  llm_calls : nat;
  trace : list event;
}.

Definition initial_state : state :=
  {| free_plan_question_expose_count := 0;
     total_generated_question_count := 0;
     success_at_least_once := false;
     failed_at_least_once := false;
     prev_questions := [];
     llm_calls := 0;
     trace := [] |}.

Definition set_free_plan_question_expose_count (n : nat) (s : state) : state :=
  {| free_plan_question_expose_count := n;
     total_generated_question_count := total_generated_question_count s;
     success_at_least_once := success_at_least_once s;
     failed_at_least_once := failed_at_least_once s;
     prev_questions := prev_questions s;
     llm_calls := llm_calls s;
     trace := trace s |}.

Definition set_total_generated_question_count (n : nat) (s : state) : state :=
  {| free_plan_question_expose_count := free_plan_question_expose_count s;
     total_generated_question_count := n;
     success_at_least_once := success_at_least_once s;
     failed_at_least_once := failed_at_least_once s;
     prev_questions := prev_questions s;
     llm_calls := llm_calls s;
     trace := trace s |}.

Definition set_success_at_least_once (b : bool) (s : state) : state :=
  {| free_plan_question_expose_count := free_plan_question_expose_count s;
     total_generated_question_count := total_generated_question_count s;
     success_at_least_once := b;
     failed_at_least_once := failed_at_least_once s;
     prev_questions := prev_questions s;
     llm_calls := llm_calls s;
     trace := trace s |}.

Definition set_failed_at_least_once (b : bool) (s : state) : state :=
  {| free_plan_question_expose_count := free_plan_question_expose_count s;
     total_generated_question_count := total_generated_question_count s;
     success_at_least_once := success_at_least_once s;
     failed_at_least_once := b;
     prev_questions := prev_questions s;
     llm_calls := llm_calls s;
     trace := trace s |}.

Definition set_prev_questions (l : list string) (s : state) : state :=
  {| free_plan_question_expose_count := free_plan_question_expose_count s;
     total_generated_question_count := total_generated_question_count s;
     success_at_least_once := success_at_least_once s;
     failed_at_least_once := failed_at_least_once s;
     prev_questions := l;
     llm_calls := llm_calls s;
     trace := trace s |}.

Definition set_llm_calls (n : nat) (s : state) : state :=
  {| free_plan_question_expose_count := free_plan_question_expose_count s;
     total_generated_question_count := total_generated_question_count s;
     success_at_least_once := success_at_least_once s;
     failed_at_least_once := failed_at_least_once s;
     prev_questions := prev_questions s;
     llm_calls := n;
     trace := trace s |}.

Definition set_trace (t : list event) (s : state) : state :=
  {| free_plan_question_expose_count := free_plan_question_expose_count s;
     total_generated_question_count := total_generated_question_count s;
     success_at_least_once := success_at_least_once s;
     failed_at_least_once := failed_at_least_once s;
     prev_questions := prev_questions s;
     llm_calls := llm_calls s;
     trace := t |}.

(** ** The monad: state threaded through, with Python exceptions *)

Definition M (A : Type) : Type := state → state * (exn + A).

Global Instance M_ret : MRet M := λ A a s, (s, inr a).

Global Instance M_bind : MBind M := λ A B f m s,
  match m s with
  | (s', inl e) => (s', inl e)
  | (s', inr a) => f a s'
  end.

(** [raise e] *)
Global Instance M_throw : MThrow exn M := λ A e s, (s, inl e).

(** [try: m except Exception as e: ...]: the exception becomes a value; the
    assignments and calls made before it was raised are kept. *)
Definition try {A} (m : M A) : M (exn + A) := λ s,
  let '(s', r) := m s in (s', inr r).

Definition gets {A} (f : state → A) : M A := λ s, (s, inr (f s)).

Definition modify (f : state → state) : M unit := λ s, (f s, inr tt).

(** [for x in l: body(x)], left by the first exception [body] raises. *)
Fixpoint for_each {A} (l : list A) (body : A → M unit) : M unit :=
  match l with
  | [] => mret tt
  | x :: l' => body x ;; for_each l' body
  end.

(** A call to a collaborator that returns nothing of interest. *)
Definition emit (e : event) : M unit :=
  modify (λ s, set_trace (trace s ++ [e]) s).

Definition execute_query (q : query) : M unit := emit (ExecuteQuery q).
Definition commit : M unit := emit Commit.
Definition close : M unit := emit Close.

Definition report_llm_error (t : task) (error_type : LLMErrorType)
    (document_content : string) (llm_response : option string)
    (msg : error_message) : M unit :=
  emit (ReportLLMError t error_type document_content llm_response msg).

Definition raise_llm {A} (r : llm_result A) : M A :=
  match r with
  | Parsed v => mret v
  | NotJson llm_response => mthrow (InvalidLLMJsonResponseError llm_response)
  | Failed => mthrow OtherError
  end.

(** [d[key]] on a dictionary *)
Definition subscript (d : q_set) (key : string) : M string :=
  match d !! key with
  | Some v => mret v
  | None => mthrow (KeyError key)
  end.

(** ** The handler (worker.py) *)

(** What [handler] returns: [None] on the bare [return]s, the dictionary
    [{"statusCode": 200, "message": "hi"}] at the end. *)
Record response := { statusCode : nat; message : string }.

(** The decoded body of the queue record: each field is [None] when its
    key is absent; [db_pk] is given as the integer [int(...)] makes of it. *)
Record body := {
  body_s3_key : option string;
  body_db_pk : option Z;
  body_subscription_plan : option string;
}.

Section handler.
Variable w : world.

(** [chat_llm.predict_json(messages)] on the question prompt *)
Definition predict_json_questions (note prev_question_str : string)
  : M (list q_set) :=
  n ← gets llm_calls;
  modify (set_llm_calls (S n));;
  emit (PredictJson (GenerateQuestions note prev_question_str));;
  raise_llm (question_llm w n).

(** [chat_llm.predict_json(messages)] on the summary prompt *)
Definition predict_json_summary (note : string) : M q_set :=
  emit (PredictJson (GenerateSummary note));;
  raise_llm (summary_llm w).

(** Lines 85-87:
<<
    prev_questions.append(question)
    if len(prev_questions) == 6:
        prev_questions.pop(0)
>>
*)
Definition remember_question (question : string) : M unit :=
  modify (λ s, set_prev_questions (prev_questions s ++ [question]) s);;
  n ← gets (λ s, length (prev_questions s));
  if n =? 6 then modify (λ s, set_prev_questions (tail (prev_questions s)) s)
  else mret tt.

(** Lines 91-100: the delivery decision. *)
Definition decide_delivered_count (subscription_plan : string) : M nat :=
  if String.eqb subscription_plan (SubscriptionPlanType_value FREE) then
    n ← gets free_plan_question_expose_count;
    if QuizQuestionNum_value FREE_PLAN_QUIZ_QUESTION_NUM <=? n then mret 0
    else
      modify (λ s, set_free_plan_question_expose_count
                     (free_plan_question_expose_count s + 1) s);;
      mret 1
  else if String.eqb subscription_plan (SubscriptionPlanType_value PRO) then
    mret 1
  else mthrow (ValueError "Wrong subscription plan type").

(** Lines 82-105: the body of [for q_set in resp_dict]. *)
Definition process_q_set (subscription_plan : string) (db_pk : Z)
    (q_set : q_set) : M unit :=
  question ← subscript q_set "question";
  answer ← subscript q_set "answer";
  remember_question question;;
  modify (λ s, set_total_generated_question_count
                 (total_generated_question_count s + 1) s);;
  delivered_count ← decide_delivered_count subscription_plan;
  execute_query (InsertQuestion question answer db_pk delivered_count);;
  commit.

(** Lines 54-121: the body of [for chunk in chunks].  Each [continue]
    ends the body. *)
Definition generate_questions (subscription_plan : string) (db_pk : Z)
    (chunk : string) : M unit :=
  prev_question_str ← gets (λ s, str_join "
" (prev_questions s));
  r ← try (predict_json_questions chunk prev_question_str);
  match r with
  | inl (InvalidLLMJsonResponseError llm_response) =>
      report_llm_error QuestionGeneration INVALID_JSON_FORMAT chunk
        (Some llm_response) NotJsonDecodable;;
      modify (set_failed_at_least_once true)
  | inl _ =>
      report_llm_error QuestionGeneration GENERAL chunk None
        FailedToGenerateQuestions;;
      modify (set_failed_at_least_once true)
  | inr resp_dict =>
      r ← try (for_each resp_dict (process_q_set subscription_plan db_pk));
      match r with
      | inl _ =>
          report_llm_error QuestionGeneration GENERAL chunk None
            (MissingQuestionAnswerKeys resp_dict);;
          modify (set_failed_at_least_once true)
      | inr _ =>
          modify (set_success_at_least_once true);;
          commit
      end
  end.

(** Lines 141-145:
<<
    summary_input = ""
    for chunk in chunks:
        summary_input += chunk[:600]
        if len(summary_input) > 2000:
            break
>>
*)
Fixpoint summary_input_loop (summary_input : string) (chunks : list string)
  : string :=
  match chunks with
  | [] => summary_input
  | chunk :: chunks' =>
      let summary_input := summary_input +:+ str_take 600 chunk in
      if 2000 <? String.length summary_input then summary_input
      else summary_input_loop summary_input chunks'
  end.

Definition build_summary_input (chunks : list string) : string :=
  summary_input_loop "" chunks.

(** Lines 140-184: summary generation. *)
Definition generate_summary (s3_key : string) (db_pk : Z)
    (chunks : list string) : M (option response) :=
  let summary_input := build_summary_input chunks in
  r ← try (resp_dict ← predict_json_summary summary_input;
           subscript resp_dict "summary");
  match r with
  | inl (InvalidLLMJsonResponseError llm_response) =>
      report_llm_error SummaryGeneration INVALID_JSON_FORMAT summary_input
        (Some llm_response) NotJsonDecodable;;
      mret None
  | inl _ =>
      report_llm_error SummaryGeneration GENERAL summary_input None
        FailedToGenerateQuestions;;
      mret None
  | inr summary =>
      execute_query (UpdateDocumentSummary summary db_pk);;
      commit;;
      close;;
      mret (Some {| statusCode := 200; message := "hi" |})
  end.

(** Lines 25-184, once the three fields of the body are known. *)
Definition process_document (s3_key : string) (db_pk : Z)
    (subscription_plan : string) : M (option response) :=
  let content := s3_object w s3_key in
  let chunks := chunks_of content in
  for_each chunks (generate_questions subscription_plan db_pk);;
  success ← gets success_at_least_once;
  if negb success then
    execute_query (UpdateDocumentStatus COMPLETELY_FAILED db_pk);;
    commit;;
    mret None
  else
    failed ← gets failed_at_least_once;
    (if (failed : bool)
     then execute_query (UpdateDocumentStatus PARTIAL_SUCCESS db_pk)
     else execute_query (UpdateDocumentStatus PROCESSED db_pk));;
    commit;;
    generate_summary s3_key db_pk chunks.

Definition handler (b : body) : M (option response) :=
  match body_s3_key b, body_db_pk b, body_subscription_plan b
  return M (option response) with
  | Some s3_key, Some db_pk, Some subscription_plan =>
      process_document s3_key db_pk subscription_plan
  | _, _, _ =>
      mthrow
        (ValueError "s3_key and db_pk and subscription_plan must be provided.")
  end.

(** One invocation: the handler started on fresh local variables. *)
Definition run (b : body) : state * (exn + option response) :=
  handler b initial_state.
End handler.

(** ** What a trace leaves behind

    The database client is used through [execute_query], [commit] and
    [close] only.  A statement is persisted once a [commit] follows it on
    the connection; closing the connection drops what was not committed. *)

Record db := { committed : list query; pending : list query }.

Definition db_step (d : db) (e : event) : db :=
  match e with
  | ExecuteQuery q => {| committed := committed d; pending := pending d ++ [q] |}
  | Commit => {| committed := committed d ++ pending d; pending := [] |}
  | Close => {| committed := committed d; pending := [] |}
  | _ => d
  end.

Definition db_of (t : list event) : db :=
  foldl db_step {| committed := []; pending := [] |} t.

(** The statements of a trace that were committed, in order. *)
Definition persisted (t : list event) : list query := committed (db_of t).

(** A row of the [question] table. *)
Record question_row := {
  row_question : string;
  row_answer : string;
  row_document_id : Z;
  row_delivered_count : nat;
}.

Definition insert_of (r : question_row) : query :=
  InsertQuestion (row_question r) (row_answer r) (row_document_id r)
    (row_delivered_count r).

Definition question_rows (qs : list query) : list question_row :=
  omap (λ q, match q with
             | InsertQuestion question answer document_id delivered_count =>
                 Some {| row_question := question; row_answer := answer;
                         row_document_id := document_id;
                         row_delivered_count := delivered_count |}
             | _ => None
             end) qs.

(** The status updates among a list of statements: status and document id. *)
Definition status_updates (qs : list query) : list (DocumentStatus * Z) :=
  omap (λ q, match q with
             | UpdateDocumentStatus status id => Some (status, id)
             | _ => None
             end) qs.

Definition is_summary_call (e : event) : bool :=
  match e with PredictJson (GenerateSummary _) => true | _ => false end.

Definition is_question_call (e : event) : bool :=
  match e with PredictJson (GenerateQuestions _ _) => true | _ => false end.

Definition is_report (e : event) : bool :=
  match e with ReportLLMError _ _ _ _ _ => true | _ => false end.

Definition is_close (e : event) : bool :=
  match e with Close => true | _ => false end.

(** The reports sent to the notifier, in order. *)
Definition reports (t : list event) : list event := List.filter is_report t.

(** The summary updates among a list of statements. *)
Definition summary_updates (qs : list query) : list (string * Z) :=
  omap (λ q, match q with
             | UpdateDocumentSummary summary id => Some (summary, id)
             | _ => None
             end) qs.

(** The events of the question loop: question prompts, reports about
    question generation, inserts and commits. *)
Definition is_question_phase (e : event) : bool :=
  match e with
  | PredictJson (GenerateQuestions _ _) => true
  | ReportLLMError QuestionGeneration _ _ _ _ => true
  | ExecuteQuery (InsertQuestion _ _ _ _) => true
  | Commit => true
  | _ => false
  end.

(** ** Chunk outcomes and the status rule, in the words of the specification *)

Inductive ChunkOutcome := Success | InvalidLLMOutputFormat | GeneralFailure.

Global Instance ChunkOutcome_eq_dec : EqDecision ChunkOutcome.
Proof. solve_decision. Defined.

(** The question and answer of an element, when it has both keys. *)
Definition q_pair (q : q_set) : option (string * string) :=
  question ← q !! "question";
  answer ← q !! "answer";
  Some (question, answer).

Definition has_keys (q : q_set) : bool := bool_decide (is_Some (q_pair q)).

Definition valid_plan (subscription_plan : string) : bool :=
  String.eqb subscription_plan (SubscriptionPlanType_value FREE)
  || String.eqb subscription_plan (SubscriptionPlanType_value PRO).

(** Which exit of the chunk body a model answer leads to (lemmas
    [generate_questions_outcome] for the flags and
    [generate_questions_report] for the notifier): the first handler for a
    response that is
    not JSON, the second for any other failure of the call, the third when
    an element raises, the end of the body otherwise.  An element raises
    when a key is missing or when the plan is neither FREE nor PRO. *)
Definition chunk_outcome (subscription_plan : string)
    (r : llm_result (list q_set)) : ChunkOutcome :=
  match r with
  | NotJson _ => InvalidLLMOutputFormat
  | Failed => GeneralFailure
  | Parsed [] => Success
  | Parsed resp_dict =>
      if valid_plan subscription_plan && forallb has_keys resp_dict
      then Success else GeneralFailure
  end.

Definition is_success (o : ChunkOutcome) : bool :=
  match o with Success => true | _ => false end.

(** The outcomes of the first [n] chunks of a run. *)
Definition chunk_outcomes (w : world) (subscription_plan : string) (n : nat)
  : list ChunkOutcome :=
  map (λ k, chunk_outcome subscription_plan (question_llm w k)) (seq 0 n).

Definition count_outcome (o : ChunkOutcome) (l : list ChunkOutcome) : nat :=
  length (filter (λ x, x = o) l).

(** Section 4.4 of the specification, read over the multiset of outcomes. *)
Definition derived_status (l : list ChunkOutcome) : DocumentStatus :=
  if count_outcome Success l =? 0 then COMPLETELY_FAILED
  else if 0 <? count_outcome InvalidLLMOutputFormat l
               + count_outcome GeneralFailure l
  then PARTIAL_SUCCESS
  else PROCESSED.

(** The elements of a response that are processed without raising under a
    valid plan: those before the first one that lacks a key. *)
Fixpoint accepted_pairs (resp_dict : list q_set) : list (string * string) :=
  match resp_dict with
  | [] => []
  | q :: rest =>
      match q_pair q with
      | Some qa => qa :: accepted_pairs rest
      | None => []
      end
  end.

Definition accepted_of (r : llm_result (list q_set)) : list (string * string) :=
  match r with Parsed resp_dict => accepted_pairs resp_dict | _ => [] end.

(** The window the source keeps: after an append, a list that reached six
    entries loses its first. *)
Definition window_push (l : list string) (question : string) : list string :=
  let l' := l ++ [question] in
  if length l' =? 6 then tail l' else l'.

(** ** The effect of one element, in closed form

    What [process_q_set] does to the state on an element that has both keys
    (lemmas [process_q_set_valid] and [process_q_set_invalid]). *)

(** Lines 85-89: the window and the counter of generated questions. *)
Definition note_question (question : string) (s : state) : state :=
  set_total_generated_question_count (total_generated_question_count s + 1)
    (set_prev_questions (window_push (prev_questions s) question) s).

(** Lines 91-98 as a function of the plan and of the exposure counter. *)
Definition delivered_count_of (p : SubscriptionPlanType) (exposed : nat) : nat :=
  match p with
  | FREE => if 5 <=? exposed then 0 else 1
  | PRO => 1
  end.

Definition exposed_after (p : SubscriptionPlanType) (exposed : nat) : nat :=
  match p with
  | FREE => if 5 <=? exposed then exposed else exposed + 1
  | PRO => exposed
  end.

Definition accept_question (p : SubscriptionPlanType) (db_pk : Z)
    (s : state) (qa : string * string) : state :=
  let s1 := note_question qa.1 s in
  let exposed := free_plan_question_expose_count s1 in
  set_trace
    (trace s1 ++
     [ExecuteQuery (InsertQuestion qa.1 qa.2 db_pk (delivered_count_of p exposed));
      Commit])
    (set_free_plan_question_expose_count (exposed_after p exposed) s1).

(** ** The effect of one chunk, in closed form (lemma [generate_questions_cases]) *)

(** The state once the model has been called for a chunk. *)
Definition after_call (chunk : string) (s : state) : state :=
  set_trace
    (trace s ++
     [PredictJson (GenerateQuestions chunk (str_join "
" (prev_questions s)))])
    (set_llm_calls (S (llm_calls s)) s).

(** The three [except] branches: a report, then [failed_at_least_once]. *)
Definition after_failure (report : event) (s : state) : state :=
  set_failed_at_least_once true (set_trace (trace s ++ [report]) s).

(** Lines 118-121. *)
Definition after_success (s : state) : state :=
  set_trace (trace s ++ [Commit]) (set_success_at_least_once true s).

(** ** The rows a run is expected to leave, in the words of the specification *)

(** The pairs accepted from the first [n] chunks, in generation order. *)
Definition accepted_upto (w : world) (n : nat) : list (string * string) :=
  flat_map (λ k, accepted_of (question_llm w k)) (seq 0 n).

(** The pairs accepted from chunks [a], [a+1], ..., [b-1]. *)
Definition accepted_between (w : world) (a b : nat) : list (string * string) :=
  flat_map (λ k, accepted_of (question_llm w k)) (seq a (b - a)).

(** The quota: under FREE the first five questions of a document are
    delivered, under PRO all are. *)
Definition deliver (p : SubscriptionPlanType) (n : nat) : nat :=
  match p with
  | FREE => if n <? 5 then 1 else 0
  | PRO => 1
  end.

(** The rows for a list of pairs, of which the first is the [n]-th question
    generated for the document (counted from 0). *)
Fixpoint rows_from (p : SubscriptionPlanType) (db_pk : Z) (n : nat)
    (pairs : list (string * string)) : list question_row :=
  match pairs with
  | [] => []
  | qa :: rest =>
      {| row_question := qa.1; row_answer := qa.2; row_document_id := db_pk;
         row_delivered_count := deliver p n |}
      :: rows_from p db_pk (S n) rest
  end.

(** The exposure counter after [n] generated questions. *)
Definition exposure (p : SubscriptionPlanType) (n : nat) : nat :=
  match p with FREE => n `min` 5 | PRO => 0 end.

Definition row_pair (r : question_row) : string * string :=
  (row_question r, row_answer r).

(** The summary a run obtains from the model, if any. *)
Definition summary_of (w : world) : option string :=
  match summary_llm w with
  | Parsed resp_dict => resp_dict !! "summary"
  | _ => None
  end.

(** ** The run after the chunk loop, in closed form (lemma [run_cases]) *)

(** The state in which the chunk loop leaves the handler. *)
Definition after_questions (w : world) (s3_key : string) (db_pk : Z)
    (subscription_plan : string) : state :=
  (for_each (chunks_of (s3_object w s3_key))
     (generate_questions w subscription_plan db_pk) initial_state).1.

(** Lines 123-136 read off the two flags. *)
Definition status_of_flags (s : state) : DocumentStatus :=
  if negb (success_at_least_once s) then COMPLETELY_FAILED
  else if failed_at_least_once s then PARTIAL_SUCCESS
  else PROCESSED.

(** The calls of lines 157-182. *)
Definition summary_events (w : world) (db_pk : Z) (summary_input : string)
  : list event :=
  PredictJson (GenerateSummary summary_input) ::
  match summary_llm w with
  | NotJson llm_response =>
      [ReportLLMError SummaryGeneration INVALID_JSON_FORMAT summary_input
         (Some llm_response) NotJsonDecodable]
  | Failed =>
      [ReportLLMError SummaryGeneration GENERAL summary_input None
         FailedToGenerateQuestions]
  | Parsed resp_dict =>
      match resp_dict !! "summary" with
      | None =>
          [ReportLLMError SummaryGeneration GENERAL summary_input None
             FailedToGenerateQuestions]
      | Some summary =>
          [ExecuteQuery (UpdateDocumentSummary summary db_pk); Commit; Close]
      end
  end.

Definition ok_response : response := {| statusCode := 200; message := "hi" |}.

(** What holds between two chunks under FREE or PRO, [k] chunks having been
    handled: nothing is pending, the committed statements are the inserts
    of the pairs accepted so far with the quota applied in generation
    order, the two counters agree with them, and the window results from
    pushing their questions one by one. *)
Definition rows_inv (w : world) (p : SubscriptionPlanType) (db_pk : Z)
    (k : nat) (s : state) : Prop :=
  llm_calls s = k
  ∧ db_of (trace s)
    = {| committed := map insert_of (rows_from p db_pk 0 (accepted_upto w k));
         pending := [] |}
  ∧ total_generated_question_count s = length (accepted_upto w k)
  ∧ free_plan_question_expose_count s
    = exposure p (total_generated_question_count s)
  ∧ prev_questions s = foldl window_push [] (map fst (accepted_upto w k)).

(** A request whose three fields are present. *)
Definition request (s3_key : string) (db_pk : Z) (subscription_plan : string)
  : body :=
  {| body_s3_key := Some s3_key; body_db_pk := Some db_pk;
     body_subscription_plan := Some subscription_plan |}.


(** ** Further observations of a trace *)

(** The statements sent to [execute_query], committed or not, in order. *)
Definition executed (t : list event) : list query :=
  omap (λ e, match e with ExecuteQuery q => Some q | _ => None end) t.

(** The placeholders of the question prompts sent to the model, in order:
    the note and the rendered window of previous questions. *)
Definition question_prompts (t : list event) : list (string * string) :=
  omap (λ e, match e with
             | PredictJson (GenerateQuestions note prev_questions) =>
                 Some (note, prev_questions)
             | _ => None
             end) t.

(** The reports about question generation: error type and document content. *)
Definition question_reports (t : list event) : list (LLMErrorType * string) :=
  omap (λ e, match e with
             | ReportLLMError QuestionGeneration error_type document_content _ _ =>
                 Some (error_type, document_content)
             | _ => None
             end) t.

(** The reports about summary generation: error type, document content and
    raw response. *)
Definition summary_reports (t : list event)
  : list (LLMErrorType * string * option string) :=
  omap (λ e, match e with
             | ReportLLMError SummaryGeneration error_type document_content
                 llm_response _ =>
                 Some (error_type, document_content, llm_response)
             | _ => None
             end) t.

(** What the element loop sends: inserts and commits. *)
Definition is_insert_or_commit (e : event) : bool :=
  match e with
  | ExecuteQuery (InsertQuestion _ _ _ _) => true
  | Commit => true
  | _ => false
  end.

(** What one chunk sends after its model call. *)
Definition is_chunk_tail (e : event) : bool :=
  match e with
  | ReportLLMError QuestionGeneration _ _ _ _ => true
  | ExecuteQuery (InsertQuestion _ _ _ _) => true
  | Commit => true
  | _ => false
  end.

(** What the handler sends once the chunk loop is over. *)
Definition is_run_tail (e : event) : bool :=
  match e with
  | PredictJson (GenerateSummary _) => true
  | ReportLLMError SummaryGeneration _ _ _ _ => true
  | ExecuteQuery (UpdateDocumentStatus _ _) => true
  | ExecuteQuery (UpdateDocumentSummary _ _) => true
  | Commit => true
  | Close => true
  | _ => false
  end.

(** The report a chunk with a given outcome gives rise to. *)
Definition report_of_outcome (chunk : string) (o : ChunkOutcome)
  : option (LLMErrorType * string) :=
  match o with
  | Success => None
  | InvalidLLMOutputFormat => Some (INVALID_JSON_FORMAT, chunk)
  | GeneralFailure => Some (GENERAL, chunk)
  end.

(** The window as rendered into the prompt of chunk [k] under FREE or PRO:
    the last five questions accepted from the chunks before it, one per
    line. *)
Definition dedup_hint (w : world) (k : nat) : string :=
  let questions := map fst (accepted_upto w k) in
  str_join "
" (drop (length questions - 5) questions).

(** A body without its [subscription_plan] field. *)
Definition body_without_plan : body :=
  {| body_s3_key := Some "k"; body_db_pk := Some 7%Z;
     body_subscription_plan := None |}.

(** The statements the handler can send under a given plan for a given
    document: inserts for that document with a delivered flag of 0 or 1,
    and only under FREE or PRO; status and summary updates of that
    document. *)
Definition handler_query (subscription_plan : string) (db_pk : Z) (q : query)
  : Prop :=
  match q with
  | InsertQuestion _ _ document_id delivered_count =>
      document_id = db_pk ∧ delivered_count ≤ 1
      ∧ valid_plan subscription_plan = true
  | UpdateDocumentStatus _ id => id = db_pk
  | UpdateDocumentSummary _ id => id = db_pk
  end.

(** A trace after which nothing is pending: all that was sent to the
    database has been committed. *)
Definition all_committed (t : list event) : Prop :=
  db_of t = {| committed := executed t; pending := [] |}.

(** The events of a chunk whose response is the empty list: the model call
    with an empty window, then the commit of lines 118-121. *)
Definition empty_answer_events (chunk : string) : list event :=
  [PredictJson (GenerateQuestions chunk ""); Commit].

(** A document of 1101 characters whose chunks are all answered with the
    empty list. *)
Definition w_empty_answers : world :=
  {| s3_object := λ _, str_repeat "a" 1101;
     question_llm := λ _, Parsed [];
     summary_llm := Failed |}.

(** ** Test documents and model answers *)

(** [{"question": question, "answer": answer}] *)
Definition qa_dict (question answer : string) : q_set :=
  <["question" := question]> (<["answer" := answer]> ∅).

(** [{"question": question}]: the answer key is missing. *)
Definition question_only (question : string) : q_set :=
  <["question" := question]> ∅.

(** A one-chunk document whose response has a malformed second element. *)
Definition w_malformed : world :=
  {| s3_object := λ _, "note";
     question_llm := λ _,
       Parsed [qa_dict "q1" "a1"; question_only "q2"; qa_dict "q3" "a3"];
     summary_llm := Failed |}.

(** A one-chunk document for which the model call fails. *)
Definition w_all_failed : world :=
  {| s3_object := λ _, "note";
     question_llm := λ _, Failed;
     summary_llm := Parsed (<["summary" := "text"]> ∅) |}.

(** A one-chunk document with seven well-formed questions. *)
Definition w_seven : world :=
  {| s3_object := λ _, "note";
     question_llm := λ _,
       Parsed [qa_dict "q1" "a1"; qa_dict "q2" "a2"; qa_dict "q3" "a3";
               qa_dict "q4" "a4"; qa_dict "q5" "a5"; qa_dict "q6" "a6";
               qa_dict "q7" "a7"];
     summary_llm := Parsed (<["summary" := "text"]> ∅) |}.

(** A document of 1101 characters, hence two chunks, each answered with one
    well-formed question. *)
Definition w_two_chunks : world :=
  {| s3_object := λ _, str_repeat "a" 1101;
     question_llm := λ _, Parsed [qa_dict "q" "a"];
     summary_llm := Parsed (<["summary" := "text"]> ∅) |}.

(** An empty document. *)
Definition w_empty : world :=
  {| s3_object := λ _, "";
     question_llm := λ _, Parsed [qa_dict "q" "a"];
     summary_llm := Parsed (<["summary" := "text"]> ∅) |}.

(** The four end-to-end scenarios of section 8 of the specification. *)

(** A: 3300 characters, every chunk answered with two pairs. *)
Definition w_scenario_a : world :=
  {| s3_object := λ _, str_repeat "a" 3300;
     question_llm := λ _, Parsed [qa_dict "q" "a"; qa_dict "r" "b"];
     summary_llm := Parsed (<["summary" := "text"]> ∅) |}.

(** B: two chunks, the first answered with text that is not JSON. *)
Definition w_scenario_b : world :=
  {| s3_object := λ _, str_repeat "a" 1101;
     question_llm := λ n,
       match n with
       | 0 => NotJson "oops"
       | _ => Parsed [qa_dict "q" "a"]
       end;
     summary_llm := Parsed (<["summary" := "text"]> ∅) |}.

(** C: two chunks, both calls fail. *)
Definition w_scenario_c : world :=
  {| s3_object := λ _, str_repeat "a" 1101;
     question_llm := λ _, Failed;
     summary_llm := Parsed (<["summary" := "text"]> ∅) |}.

(** D: every chunk succeeds, the summary answer is not JSON. *)
Definition w_scenario_d : world :=
  {| s3_object := λ _, str_repeat "a" 1101;
     question_llm := λ _, Parsed [qa_dict "q" "a"];
     summary_llm := NotJson "oops" |}.

(** * Properties *)

(** ** Lemmas on strings *)

Section str_lemmas.
Implicit Types (s : string) (n m : nat).

Lemma str_take_length n s :
  String.length (str_take n s) = n `min` String.length s.
Proof.
  revert s; induction n as [|n IH]; intros [|c s]; simpl; auto.
Qed.

Lemma str_drop_length n s :
  String.length (str_drop n s) = String.length s - n.
Proof.
  revert s; induction n as [|n IH]; intros [|c s]; simpl; auto.
Qed.

Lemma str_take_drop n s : str_take n s +:+ str_drop n s = s.
Proof.
  revert s; induction n as [|n IH]; intros [|c s]; simpl; auto.
  change (String c (str_take n s +:+ str_drop n s) = String c s).
  by rewrite IH.
Qed.

Lemma str_drop_drop n m s : str_drop m (str_drop n s) = str_drop (n + m) s.
Proof.
  revert s; induction n as [|n IH]; intros [|c s]; simpl; auto.
  by destruct m.
Qed.

Lemma str_drop_all n s : String.length s ≤ n → str_drop n s = EmptyString.
Proof.
  revert s; induction n as [|n IH]; intros [|c s]; simpl; auto; try lia.
  intros; apply IH; lia.
Qed.

Lemma str_take_all n s : String.length s ≤ n → str_take n s = s.
Proof.
  revert s; induction n as [|n IH]; intros [|c s]; simpl; auto; try lia.
  intros; f_equal; apply IH; lia.
Qed.

Lemma str_app_length s1 s2 :
  String.length (s1 +:+ s2) = String.length s1 + String.length s2.
Proof. induction s1 as [|c s1 IH]; simpl; auto. Qed.

Lemma str_slice_length i size s :
  String.length (str_slice i (i + size) s) = size `min` (String.length s - i).
Proof.
  unfold str_slice. rewrite str_take_length, str_drop_length.
  replace (i + size - i) with size by lia. done.
Qed.
End str_lemmas.

(** ** Running the monad symbolically *)

Ltac mrun :=
  cbv [mbind mret mthrow M_bind M_ret M_throw try gets modify emit
       execute_query commit close report_llm_error raise_llm subscript
       remember_question decide_delivered_count process_q_set
       predict_json_questions predict_json_summary].

Lemma for_each_cons {A} (x : A) l (body : A → M unit) s :
  for_each (x :: l) body s =
    match body x s with
    | (s', inl e) => (s', inl e)
    | (s', inr _) => for_each l body s'
    end.
Proof. reflexivity. Qed.

(** A property of the state kept by every iteration is kept by the loop,
    whether or not an iteration raises. *)
Lemma for_each_inv {A} (I : state → Prop) (body : A → M unit) l s :
  (∀ x s, I s → I (body x s).1) → I s → I (for_each l body s).1.
Proof.
  intros Hbody. revert s. induction l as [|x l IH]; intros s Hs; [done|].
  rewrite for_each_cons. specialize (Hbody x s Hs).
  destruct (body x s) as [s' [e|[]]]; simpl in *; auto.
Qed.

(** The same for a property indexed by the number of iterations made, when
    no iteration raises: the loop then runs to its end. *)
Lemma for_each_count {A} (I : nat → state → Prop) (body : A → M unit) l k s :
  (∀ k x s, I k s → I (S k) (body x s).1 ∧ (body x s).2 = inr tt) →
  I k s →
  I (k + length l) (for_each l body s).1 ∧ (for_each l body s).2 = inr tt.
Proof.
  intros Hbody. revert k s.
  induction l as [|x l IH]; intros k s Hs; simpl length.
  - by rewrite Nat.add_0_r.
  - rewrite for_each_cons. destruct (Hbody k x s Hs) as [Hs' Hr].
    destruct (body x s) as [s' r]; simpl in *; subst r.
    replace (k + S (length l)) with (S k + length l) by lia. by apply IH.
Qed.

(** ** One element of a response (lines 82-105) *)

Lemma q_pair_Some q question answer :
  q_pair q = Some (question, answer)
  ↔ q !! "question" = Some question ∧ q !! "answer" = Some answer.
Proof.
  unfold q_pair.
  destruct (q !! "question") as [x|], (q !! "answer") as [y|]; simpl;
    (split; [intros [= <- <-]|intros [[= <-] [= <-]]]); done.
Qed.

Lemma q_pair_None q :
  q_pair q = None ↔ q !! "question" = None ∨ q !! "answer" = None.
Proof.
  unfold q_pair.
  destruct (q !! "question") as [x|], (q !! "answer") as [y|]; simpl;
    (split; [intros [=]|intros [[=]|[=]]]); auto.
Qed.

Lemma has_keys_true q : has_keys q = true ↔ ∃ qa, q_pair q = Some qa.
Proof. unfold has_keys. by rewrite bool_decide_eq_true. Qed.

Lemma has_keys_false q : has_keys q = false ↔ q_pair q = None.
Proof.
  unfold has_keys. by rewrite bool_decide_eq_false, <- eq_None_not_Some.
Qed.

Lemma valid_plan_true plan :
  valid_plan plan = true ↔ ∃ p, plan = SubscriptionPlanType_value p.
Proof.
  unfold valid_plan. rewrite orb_true_iff, !String.eqb_eq. split.
  - intros [->| ->]; [by exists FREE|by exists PRO].
  - intros [[] ->]; auto.
Qed.

Section element.
Variables (subscription_plan : string) (db_pk : Z).

(** An element without one of the keys raises [KeyError] before anything
    is assigned or sent. *)
Lemma process_q_set_no_keys q s :
  q_pair q = None →
  ∃ key, process_q_set subscription_plan db_pk q s = (s, inl (KeyError key)).
Proof.
  intros Hq%q_pair_None. mrun.
  destruct (q !! "question") as [question|]; [|by eexists].
  destruct Hq as [?| ->]; [done|]. by eexists.
Qed.

(** An element with both keys under a plan that is neither FREE nor PRO:
    the question enters the window and is counted, then [ValueError] is
    raised and nothing is inserted. *)
Lemma process_q_set_invalid q qa s :
  valid_plan subscription_plan = false →
  q_pair q = Some qa →
  process_q_set subscription_plan db_pk q s
  = (note_question qa.1 s, inl (ValueError "Wrong subscription plan type")).
Proof.
  destruct qa as [question answer].
  intros [H1 H2]%orb_false_elim [Hq Ha]%q_pair_Some. mrun.
  rewrite Hq, Ha, H1, H2. unfold note_question, window_push. simpl.
  by destruct (_ =? 6).
Qed.
End element.

(** An element with both keys under FREE or PRO is inserted and committed. *)
Lemma process_q_set_valid p db_pk q qa s :
  q_pair q = Some qa →
  process_q_set (SubscriptionPlanType_value p) db_pk q s
  = (accept_question p db_pk s qa, inr tt).
Proof.
  destruct qa as [question answer]. intros [Hq Ha]%q_pair_Some. mrun.
  rewrite Hq, Ha. unfold accept_question, note_question, window_push.
  destruct p; cbn -[Nat.leb Nat.eqb]; destruct (_ =? 6);
    cbn -[Nat.leb Nat.eqb]; try destruct (5 <=? _); cbn;
    rewrite <- ?app_assoc; reflexivity.
Qed.

(** The three ways an element can go. *)
Lemma process_q_set_cases plan db_pk q s :
  (∃ key, q_pair q = None
     ∧ process_q_set plan db_pk q s = (s, inl (KeyError key)))
  ∨ (∃ qa, q_pair q = Some qa ∧ valid_plan plan = false
       ∧ process_q_set plan db_pk q s
         = (note_question qa.1 s,
            inl (ValueError "Wrong subscription plan type")))
  ∨ (∃ qa p, q_pair q = Some qa ∧ plan = SubscriptionPlanType_value p
       ∧ process_q_set plan db_pk q s = (accept_question p db_pk s qa, inr tt)).
Proof.
  destruct (q_pair q) as [qa|] eqn:Hq.
  - destruct (valid_plan plan) eqn:Hplan.
    + apply valid_plan_true in Hplan as [p ->]. right; right.
      exists qa, p. eauto using process_q_set_valid.
    + right; left. exists qa. eauto using process_q_set_invalid.
  - left. destruct (process_q_set_no_keys plan db_pk q s Hq) as [key ?]. eauto.
Qed.

(** ** The loop over a response (lines 81-105) *)

(** Under FREE or PRO the elements before the first one that lacks a key
    are accepted one after the other; the loop ends normally when there is
    no such element and is left by [KeyError] otherwise. *)
Lemma for_each_q_sets_valid p db_pk resp_dict s :
  ∃ r,
    for_each resp_dict (process_q_set (SubscriptionPlanType_value p) db_pk) s
    = (foldl (accept_question p db_pk) s (accepted_pairs resp_dict), r)
    ∧ if forallb has_keys resp_dict then r = inr tt
      else ∃ key, r = inl (KeyError key).
Proof.
  revert s. induction resp_dict as [|q rest IH]; intros s.
  - by exists (inr tt).
  - rewrite for_each_cons. simpl.
    destruct (q_pair q) as [qa|] eqn:Hq.
    + rewrite (process_q_set_valid _ _ _ _ _ Hq).
      replace (has_keys q) with true
        by (symmetry; apply has_keys_true; eauto).
      apply IH.
    + destruct (process_q_set_no_keys (SubscriptionPlanType_value p) db_pk q s Hq)
        as [key ->].
      apply has_keys_false in Hq as ->. simpl. eauto.
Qed.

(** Under any other plan the first element ends the loop. *)
Lemma for_each_q_sets_invalid plan db_pk resp_dict s :
  valid_plan plan = false →
  match resp_dict with
  | [] => for_each resp_dict (process_q_set plan db_pk) s = (s, inr tt)
  | q :: _ =>
      ∃ e, for_each resp_dict (process_q_set plan db_pk) s
           = (match q_pair q with
              | Some qa => note_question qa.1 s
              | None => s
              end, inl e)
  end.
Proof.
  intros Hplan. destruct resp_dict as [|q rest]; [done|].
  rewrite for_each_cons.
  destruct (q_pair q) as [qa|] eqn:Hq.
  - rewrite (process_q_set_invalid _ _ _ _ _ Hplan Hq). eauto.
  - destruct (process_q_set_no_keys plan db_pk q s Hq) as [key ->]. eauto.
Qed.

(** ** One chunk (lines 54-121) *)

Ltac mrun_outer :=
  cbv [mbind mret mthrow M_bind M_ret M_throw try gets modify emit
       execute_query commit close report_llm_error raise_llm
       predict_json_questions predict_json_summary subscript].

Section chunk.
Variable w : world.
Variables (subscription_plan : string) (db_pk : Z).

(** The body of the chunk loop never raises: every exception of the model
    call and of the element loop is caught, reported and turned into
    [failed_at_least_once]. *)
Lemma generate_questions_cases chunk s :
  generate_questions w subscription_plan db_pk chunk s
  = match question_llm w (llm_calls s) with
    | NotJson llm_response =>
        (after_failure
           (ReportLLMError QuestionGeneration INVALID_JSON_FORMAT chunk
              (Some llm_response) NotJsonDecodable) (after_call chunk s),
         inr tt)
    | Failed =>
        (after_failure
           (ReportLLMError QuestionGeneration GENERAL chunk None
              FailedToGenerateQuestions) (after_call chunk s),
         inr tt)
    | Parsed resp_dict =>
        let '(s1, r) :=
          for_each resp_dict (process_q_set subscription_plan db_pk)
            (after_call chunk s) in
        match r with
        | inl _ =>
            (after_failure
               (ReportLLMError QuestionGeneration GENERAL chunk None
                  (MissingQuestionAnswerKeys resp_dict)) s1,
             inr tt)
        | inr _ => (after_success s1, inr tt)
        end
    end.
Proof.
  unfold generate_questions. mrun_outer.
  change (set_trace _ (set_llm_calls _ s)) with (after_call chunk s).
  destruct (question_llm w (llm_calls s)) as [resp_dict|llm_response|];
    try reflexivity.
  destruct (for_each resp_dict _ _) as [s1 [e|[]]]; reflexivity.
Qed.
End chunk.

(** ** What the loops keep *)

Lemma window_push_length l question :
  length l ≤ 5 → length (window_push l question) ≤ 5.
Proof.
  unfold window_push. intros Hl.
  destruct (Nat.eqb_spec (length (l ++ [question])) 6) as [H6|H6];
    rewrite length_app in *; simpl in *.
  - destruct l; simpl in *; [lia|]. rewrite length_app. simpl. lia.
  - lia.
Qed.

Section frames.
Variable w : world.
Variables (subscription_plan : string) (db_pk : Z).

Let element := process_q_set subscription_plan db_pk.
Let body := generate_questions w subscription_plan db_pk.

(** The element loop touches neither flag and makes no model call. *)
Lemma for_each_q_sets_frame resp_dict s :
  let s1 := (for_each resp_dict element s).1 in
  success_at_least_once s1 = success_at_least_once s
  ∧ failed_at_least_once s1 = failed_at_least_once s
  ∧ llm_calls s1 = llm_calls s.
Proof.
  apply (for_each_inv
           (λ s1, success_at_least_once s1 = success_at_least_once s
                  ∧ failed_at_least_once s1 = failed_at_least_once s
                  ∧ llm_calls s1 = llm_calls s)); [|done].
  intros q s0 Hs0. subst element.
  destruct (process_q_set_cases subscription_plan db_pk q s0)
    as [(key & _ & ->)|[(qa & _ & _ & ->)|(qa & p & _ & _ & ->)]]; done.
Qed.

(** It sends inserts and commits only. *)
Lemma for_each_q_sets_question_phase resp_dict s :
  forallb is_question_phase (trace s) = true →
  forallb is_question_phase (trace (for_each resp_dict element s).1) = true.
Proof.
  apply (for_each_inv (λ s, forallb is_question_phase (trace s) = true)).
  intros q s0 Hs0. subst element.
  destruct (process_q_set_cases subscription_plan db_pk q s0)
    as [(key & _ & ->)|[(qa & _ & _ & ->)|(qa & p & _ & _ & ->)]];
    simpl; [done..|].
  by rewrite forallb_app, Hs0.
Qed.

(** It keeps the window within five entries. *)
Lemma for_each_q_sets_window resp_dict s :
  length (prev_questions s) ≤ 5 →
  length (prev_questions (for_each resp_dict element s).1) ≤ 5.
Proof.
  apply (for_each_inv (λ s, length (prev_questions s) ≤ 5)).
  intros q s0 Hs0. subst element.
  destruct (process_q_set_cases subscription_plan db_pk q s0)
    as [(key & _ & ->)|[(qa & _ & _ & ->)|(qa & p & _ & _ & ->)]];
    simpl; auto using window_push_length.
Qed.

(** It ends normally exactly on the responses classified as [Success]. *)
Lemma for_each_q_sets_outcome resp_dict s :
  match (for_each resp_dict element s).2 with
  | inr _ => chunk_outcome subscription_plan (Parsed resp_dict) = Success
  | inl _ => chunk_outcome subscription_plan (Parsed resp_dict) = GeneralFailure
  end.
Proof.
  subst element. destruct (valid_plan subscription_plan) eqn:Hplan.
  - destruct (proj1 (valid_plan_true _) Hplan) as [p ->].
    destruct (for_each_q_sets_valid p db_pk resp_dict s) as (r & -> & Hr).
    cbn [snd chunk_outcome]. rewrite Hplan.
    destruct resp_dict as [|q rest]; [simpl in Hr; by subst r|].
    destruct (forallb has_keys (q :: rest)); [by subst r|].
    by destruct Hr as [key ->].
  - pose proof (for_each_q_sets_invalid _ db_pk resp_dict s Hplan) as H.
    destruct resp_dict as [|q rest]; [by rewrite H|].
    destruct H as [e ->]. simpl. by rewrite Hplan.
Qed.

(** One chunk: the body returns, having made one model call and having
    set the flag that its outcome calls for. *)
Lemma generate_questions_outcome chunk s :
  let o := chunk_outcome subscription_plan (question_llm w (llm_calls s)) in
  let s' := (body chunk s).1 in
  (body chunk s).2 = inr tt
  ∧ llm_calls s' = S (llm_calls s)
  ∧ success_at_least_once s' = success_at_least_once s || is_success o
  ∧ failed_at_least_once s' = failed_at_least_once s || negb (is_success o).
Proof.
  subst body. simpl. rewrite generate_questions_cases.
  destruct (question_llm w (llm_calls s)) as [resp_dict|llm_response|];
    [|by rewrite !orb_false_r, !orb_true_r..].
  pose proof (for_each_q_sets_frame resp_dict (after_call chunk s)) as Hframe.
  pose proof (for_each_q_sets_outcome resp_dict (after_call chunk s)) as Hout.
  subst element.
  destruct (for_each resp_dict _ _) as [s1 [e|[]]]; simpl in *;
    destruct Hframe as (H1 & H2 & H3); rewrite Hout, ?H1, ?H2, ?H3; simpl;
    by rewrite ?orb_false_r, ?orb_true_r.
Qed.

(** The element loop sends no report. *)
Lemma for_each_q_sets_no_report resp_dict s :
  ∃ t, trace (for_each resp_dict element s).1 = trace s ++ t ∧ reports t = [].
Proof.
  apply (for_each_inv (λ s1, ∃ t, trace s1 = trace s ++ t ∧ reports t = []));
    [|exists []; by rewrite app_nil_r].
  intros q s0 (t & Ht & Hrep). subst element.
  destruct (process_q_set_cases subscription_plan db_pk q s0)
    as [(key & _ & ->)|[(qa & _ & _ & ->)|(qa & p & _ & _ & ->)]];
    simpl; [by exists t..|].
  eexists (t ++ [_; _]). rewrite Ht, <- app_assoc. split; [done|].
  unfold reports in *. by rewrite List.filter_app, Hrep.
Qed.

(** One chunk, seen from the notifier: after the model call, a chunk
    classified as [Success] sends no report, one classified as
    [InvalidLLMOutputFormat] sends the invalid-format report with the raw
    response, one classified as [GeneralFailure] sends one general
    report. *)
Lemma generate_questions_report chunk s :
  let o := chunk_outcome subscription_plan (question_llm w (llm_calls s)) in
  ∃ t,
    trace (body chunk s).1 = trace (after_call chunk s) ++ t
    ∧ match o with
      | Success => reports t = []
      | InvalidLLMOutputFormat =>
          ∃ llm_response,
            reports t
            = [ReportLLMError QuestionGeneration INVALID_JSON_FORMAT chunk
                 (Some llm_response) NotJsonDecodable]
      | GeneralFailure =>
          ∃ msg,
            reports t
            = [ReportLLMError QuestionGeneration GENERAL chunk None msg]
      end.
Proof.
  subst body. cbv zeta. rewrite generate_questions_cases.
  destruct (question_llm w (llm_calls s)) as [resp_dict|llm_response|];
    [|eexists [_]; split; [done|]; simpl; by eexists..].
  destruct (for_each_q_sets_no_report resp_dict (after_call chunk s))
    as (t & Ht & Hrep).
  pose proof (for_each_q_sets_outcome resp_dict (after_call chunk s)) as Hout.
  subst element.
  destruct (for_each resp_dict _ _) as [s1 [e|[]]]; cbn [fst snd] in Ht, Hout;
    rewrite Hout; eexists (t ++ [_]);
    (split; [cbn [fst trace after_failure after_success set_trace
                  set_failed_at_least_once set_success_at_least_once];
             by rewrite Ht, <- app_assoc|]);
    unfold reports in *; rewrite List.filter_app, Hrep; simpl; [by eexists|done].
Qed.

Lemma generate_questions_question_phase chunk s :
  forallb is_question_phase (trace s) = true →
  forallb is_question_phase (trace (body chunk s).1) = true.
Proof.
  intros Hs. subst body. rewrite generate_questions_cases.
  assert (forallb is_question_phase (trace (after_call chunk s)) = true)
    as Hcall by (simpl; by rewrite forallb_app, Hs).
  destruct (question_llm w (llm_calls s)) as [resp_dict|llm_response|];
    [|simpl in *; by rewrite forallb_app, Hcall..].
  pose proof (for_each_q_sets_question_phase resp_dict _ Hcall) as H1.
  subst element.
  destruct (for_each resp_dict _ _) as [s1 [e|[]]]; simpl in *;
    by rewrite forallb_app, H1.
Qed.

Lemma generate_questions_window chunk s :
  length (prev_questions s) ≤ 5 →
  length (prev_questions (body chunk s).1) ≤ 5.
Proof.
  intros Hs. subst body. rewrite generate_questions_cases.
  destruct (question_llm w (llm_calls s)) as [resp_dict|llm_response|];
    [|done..].
  pose proof (for_each_q_sets_window resp_dict (after_call chunk s) Hs) as H1.
  subst element.
  destruct (for_each resp_dict _ _) as [s1 [e|[]]]; done.
Qed.
End frames.

(** ** The chunk loop and what follows it *)

Lemma chunk_outcomes_S w plan k :
  chunk_outcomes w plan (S k)
  = chunk_outcomes w plan k ++ [chunk_outcome plan (question_llm w k)].
Proof. unfold chunk_outcomes. by rewrite seq_S, map_app. Qed.

Section run.
Variable w : world.
Variables (s3_key : string) (db_pk : Z) (subscription_plan : string).

Let chunks := chunks_of (s3_object w s3_key).
Let outcomes := chunk_outcomes w subscription_plan (length chunks).
Let s_loop := after_questions w s3_key db_pk subscription_plan.

(** The chunk loop runs to its end; it has then called the model once
    per chunk, and each flag tells whether some chunk had the outcome it
    stands for. *)
Lemma question_loop_flags :
  for_each chunks (generate_questions w subscription_plan db_pk) initial_state
  = (s_loop, inr tt)
  ∧ llm_calls s_loop = length chunks
  ∧ success_at_least_once s_loop = existsb is_success outcomes
  ∧ failed_at_least_once s_loop = existsb (λ o, negb (is_success o)) outcomes.
Proof.
  subst s_loop outcomes. unfold after_questions. fold chunks.
  destruct (for_each_count
    (λ k s, llm_calls s = k
            ∧ success_at_least_once s
              = existsb is_success (chunk_outcomes w subscription_plan k)
            ∧ failed_at_least_once s
              = existsb (λ o, negb (is_success o))
                  (chunk_outcomes w subscription_plan k))
    (generate_questions w subscription_plan db_pk) chunks 0 initial_state)
    as [(H1 & H2 & H3) Hr]; [|done|].
  - intros k chunk s (Hk & Hs & Hf).
    destruct (generate_questions_outcome w subscription_plan db_pk chunk s)
      as (Hr & Hk' & Hs' & Hf').
    rewrite chunk_outcomes_S, !existsb_app. simpl.
    rewrite !orb_false_r, Hk', Hs', Hf', Hk, Hs, Hf. done.
  - simpl in *. destruct (for_each chunks _ _) as [s r]; simpl in *.
    by subst r.
Qed.

Lemma question_loop_question_phase :
  forallb is_question_phase (trace s_loop) = true.
Proof.
  subst s_loop. unfold after_questions.
  apply (for_each_inv (λ s, forallb is_question_phase (trace s) = true));
    [|done].
  intros chunk s. apply generate_questions_question_phase.
Qed.

Lemma question_loop_window : length (prev_questions s_loop) ≤ 5.
Proof.
  subst s_loop. unfold after_questions.
  apply (for_each_inv (λ s, length (prev_questions s) ≤ 5)); [|simpl; lia].
  intros chunk s. apply generate_questions_window.
Qed.

(** The whole run in terms of the state after the chunk loop: with no
    successful chunk the status is written and the handler returns;
    otherwise the status is written and the summary is attempted. *)
Lemma run_cases :
  run w (request s3_key db_pk subscription_plan)
  = if negb (success_at_least_once s_loop) then
      (set_trace
         (trace s_loop ++
          [ExecuteQuery (UpdateDocumentStatus COMPLETELY_FAILED db_pk); Commit])
         s_loop,
       inr None)
    else
      (set_trace
         (trace s_loop ++
          [ExecuteQuery (UpdateDocumentStatus (status_of_flags s_loop) db_pk);
           Commit] ++
          summary_events w db_pk (build_summary_input chunks))
         s_loop,
       inr (match summary_of w with
            | Some _ => Some ok_response
            | None => None
            end)).
Proof.
  destruct question_loop_flags as (Hloop & _).
  unfold run, handler, process_document. cbn [request body_s3_key body_db_pk
    body_subscription_plan]. fold chunks.
  unfold generate_summary. mrun_outer. rewrite Hloop.
  unfold status_of_flags, summary_events, summary_of.
  destruct (success_at_least_once s_loop); cbn [negb];
    [|cbn; by rewrite <- app_assoc].
  destruct (failed_at_least_once s_loop); cbn [negb];
    (destruct (summary_llm w) as [resp_dict|llm_response|];
     [destruct (resp_dict !! "summary")|..]); cbn;
    rewrite <- ?app_assoc; reflexivity.
Qed.
End run.

(** ** The database behind a trace *)

Lemma db_of_app t t' : db_of (t ++ t') = foldl db_step (db_of t) t'.
Proof. unfold db_of. by rewrite foldl_app. Qed.

Lemma status_updates_app qs qs' :
  status_updates (qs ++ qs') = status_updates qs ++ status_updates qs'.
Proof. unfold status_updates. by rewrite omap_app. Qed.

Lemma question_rows_app qs qs' :
  question_rows (qs ++ qs') = question_rows qs ++ question_rows qs'.
Proof. unfold question_rows. by rewrite omap_app. Qed.

(** The events of the question loop put no status update in the database. *)
Lemma question_phase_no_status t d :
  forallb is_question_phase t = true →
  status_updates (committed d) = [] →
  status_updates (pending d) = [] →
  status_updates (committed (foldl db_step d t)) = []
  ∧ status_updates (pending (foldl db_step d t)) = [].
Proof.
  revert d. induction t as [|e t IH]; intros d Ht Hc Hp; [done|].
  simpl in Ht. apply andb_true_iff in Ht as [He Ht]. simpl.
  apply IH; [done|..];
    destruct e as [[]| [] | [] | |]; simpl in *; try done;
    rewrite ?status_updates_app, ?Hc, ?Hp; done.
Qed.

Lemma question_phase_no_close t :
  forallb is_question_phase t = true → existsb is_close t = false.
Proof.
  induction t as [|e t IH]; [done|]. simpl.
  intros [He Ht]%andb_true_iff. rewrite (IH Ht).
  by destruct e as [[]| [] | [] | |].
Qed.

Lemma question_phase_no_summary_call t :
  forallb is_question_phase t = true → existsb is_summary_call t = false.
Proof.
  induction t as [|e t IH]; [done|]. simpl.
  intros [He Ht]%andb_true_iff. rewrite (IH Ht).
  by destruct e as [[]| [] | [] | |].
Qed.

(** ** The status rule on the two flags *)

Lemma count_success_zero l :
  (count_outcome Success l =? 0) = negb (existsb is_success l).
Proof.
  unfold count_outcome. induction l as [|o l IH]; [done|].
  rewrite filter_cons. destruct o; simpl; auto.
Qed.

Lemma count_failures_pos l :
  (0 <? count_outcome InvalidLLMOutputFormat l + count_outcome GeneralFailure l)
  = existsb (λ o, negb (is_success o)) l.
Proof.
  unfold count_outcome. induction l as [|o l IH]; [done|].
  rewrite !filter_cons.
  destruct o; simpl; auto.
  by rewrite Nat.add_succ_r.
Qed.

(** The two-flag reading of lines 123-136 is the rule of section 4.4. *)
Lemma derived_status_flags l :
  derived_status l
  = if negb (existsb is_success l) then COMPLETELY_FAILED
    else if existsb (λ o, negb (is_success o)) l then PARTIAL_SUCCESS
    else PROCESSED.
Proof. unfold derived_status. by rewrite count_success_zero, count_failures_pos. Qed.

Lemma status_of_flags_derived w s3_key db_pk plan :
  status_of_flags (after_questions w s3_key db_pk plan)
  = derived_status
      (chunk_outcomes w plan (length (chunks_of (s3_object w s3_key)))).
Proof.
  destruct (question_loop_flags w s3_key db_pk plan) as (_ & _ & Hs & Hf).
  rewrite derived_status_flags. unfold status_of_flags. by rewrite Hs, Hf.
Qed.

(** ** The chunker: claim C7 *)

Section chunker_facts.
Variables (size : nat) (content : string).
Hypothesis size_pos : 0 < size.

Let len := String.length content.

(** The pieces cut from position [i] onwards: they rebuild the rest of the
    text, the [k]-th one is the slice starting [k] sizes further, none is
    empty or longer than [size], and only the last can be shorter. *)
Lemma slice_all_from fuel i :
  len ≤ i + fuel * size →
  let cs := slice_all size content (range_from fuel i len size) in
  str_concat cs = str_drop i content
  ∧ ∀ k c, cs !! k = Some c →
      c = str_slice (i + k * size) (i + k * size + size) content
      ∧ 0 < String.length c ≤ size
      ∧ (k + 1 < length cs → String.length c = size).
Proof.
  subst len. revert i. induction fuel as [|fuel IH]; intros i Hfuel; simpl.
  - split; [|by intros k c; rewrite lookup_nil].
    symmetry; apply str_drop_all; lia.
  - destruct (Nat.ltb_spec i (String.length content)) as [Hi|Hi]; simpl.
    + destruct (IH (i + size)) as [Hcat Hpieces]; [lia|].
      split.
      * rewrite Hcat, <- str_drop_drop. unfold str_slice.
        replace (i + size - i) with size by lia. apply str_take_drop.
      * intros [|k] c Hk; simpl in Hk.
        -- injection Hk as <-. rewrite Nat.add_0_r.
           split; [done|]. rewrite str_slice_length. split; [lia|].
           intros Hlen.
           destruct (slice_all size content
                       (range_from fuel (i + size) (String.length content) size))
             as [|c' cs'] eqn:Hrest; [simpl in Hlen; lia|].
           destruct (Hpieces 0 c' eq_refl) as (-> & Hc' & _).
           rewrite str_slice_length in Hc'. lia.
        -- destruct (Hpieces k c Hk) as (-> & Hc & Hlast).
           split; [f_equal; lia|]. split; [done|].
           intros Hlen. apply Hlast. simpl in Hlen. lia.
    + split; [|by intros k c; rewrite lookup_nil].
      symmetry; apply str_drop_all; lia.
Qed.
End chunker_facts.

(** C7.  For every text and every positive chunk size the chunker returns
    a list of pieces (it does not raise) such that: concatenated in order
    they give the text back; the [k]-th piece is the slice
    [T[k*size : k*size + size]], so the pieces are contiguous and do not
    overlap; no piece is empty or longer than [size]; every piece but the
    last has exactly [size] characters; and the empty text gives the empty
    list. *)
Theorem chunker_partitions_text (size : nat) (T : string) :
  0 < size →
  ∃ chunks,
    chunker size T = Some chunks
    ∧ str_concat chunks = T
    ∧ (∀ k c, chunks !! k = Some c →
         c = str_slice (k * size) (k * size + size) T
         ∧ 0 < String.length c ≤ size
         ∧ (k + 1 < length chunks → String.length c = size))
    ∧ (T = EmptyString → chunks = []).
Proof.
  intros Hsize. unfold chunker, py_range.
  destruct (Nat.eqb_spec size 0) as [?|_]; [lia|]. simpl.
  eexists; split; [done|].
  destruct (slice_all_from size T Hsize (String.length T) 0) as [Hcat Hpieces];
    [nia|].
  split; [exact Hcat|]. split; [exact Hpieces|].
  by intros ->.
Qed.

Lemma chunker_partitions_text_witness :
  ∃ chunks,
    chunker 3 "abcdefgh" = Some chunks
    ∧ str_concat chunks = "abcdefgh"
    ∧ (∀ k c, chunks !! k = Some c →
         c = str_slice (k * 3) (k * 3 + 3) "abcdefgh"
         ∧ 0 < String.length c ≤ 3
         ∧ (k + 1 < length chunks → String.length c = 3))
    ∧ ("abcdefgh" = EmptyString → chunks = []).
Proof. apply (chunker_partitions_text 3 "abcdefgh"). lia. Defined.

Example chunker_example :
  chunker 3 "abcdefgh" = Some ["abc"; "def"; "gh"].
Proof. reflexivity. Qed.

(** The handler's chunk list is the chunker's at size 1100. *)
Lemma chunks_of_chunker content :
  chunker CHUNK_SIZE content = Some (chunks_of content).
Proof. reflexivity. Qed.

Lemma chunks_of_empty : chunks_of "" = [].
Proof. reflexivity. Qed.

(** ** The document status: claim C6 *)

(** C6.  For every run on a request with its three fields, exactly one
    status update is persisted, it is keyed by the document id, and its
    status follows the rule of section 4.4 applied to the outcomes of the
    chunks: COMPLETELY_FAILED when no chunk reached Success, otherwise
    PARTIAL_SUCCESS when some chunk failed (invalid format or general
    failure), otherwise PROCESSED. *)
Theorem status_is_derived_from_outcomes
    (w : world) (s3_key : string) (db_pk : Z) (subscription_plan : string) :
  let chunks := chunks_of (s3_object w s3_key) in
  let outcomes := chunk_outcomes w subscription_plan (length chunks) in
  let t := trace (run w (request s3_key db_pk subscription_plan)).1 in
  status_updates (persisted t) = [(derived_status outcomes, db_pk)].
Proof.
  intros chunks outcomes t. subst t outcomes chunks.
  rewrite run_cases, <- status_of_flags_derived with (db_pk := db_pk).
  pose proof (question_loop_question_phase w s3_key db_pk subscription_plan)
    as Hphase.
  set (s := after_questions w s3_key db_pk subscription_plan) in *.
  destruct (question_phase_no_status (trace s) {| committed := []; pending := [] |}
              Hphase eq_refl eq_refl) as [Hc Hp].
  fold (db_of (trace s)) in Hc, Hp.
  unfold status_of_flags, persisted, summary_events.
  destruct (success_at_least_once s); cbn [negb fst trace set_trace];
    rewrite db_of_app.
  - destruct (failed_at_least_once s);
      (destruct (summary_llm w) as [resp_dict|llm_response|];
       [destruct (resp_dict !! "summary")|..]); simpl;
      rewrite !status_updates_app, Hc, Hp; reflexivity.
  - simpl. rewrite !status_updates_app, Hc, Hp. reflexivity.
Qed.

(** ** Summary generation and the early return: claims C1, C9 and C10 *)

(** C1, as the code has it.  When no chunk reached Success the run writes
    COMPLETELY_FAILED, commits and returns: the summary model is not
    called.  For the two other statuses the summary model is called once,
    right after the status update has been committed. *)
Theorem summary_attempted_unless_completely_failed
    (w : world) (s3_key : string) (db_pk : Z) (subscription_plan : string) :
  let chunks := chunks_of (s3_object w s3_key) in
  let status :=
    derived_status (chunk_outcomes w subscription_plan (length chunks)) in
  let '(s, r) := run w (request s3_key db_pk subscription_plan) in
  ∃ t_loop,
    existsb is_summary_call t_loop = false
    ∧ match status with
      | COMPLETELY_FAILED =>
          trace s
          = t_loop ++
            [ExecuteQuery (UpdateDocumentStatus COMPLETELY_FAILED db_pk); Commit]
          ∧ r = inr None
      | _ =>
          ∃ t_end,
            trace s
            = t_loop ++
              [ExecuteQuery (UpdateDocumentStatus status db_pk); Commit;
               PredictJson (GenerateSummary (build_summary_input chunks))] ++
              t_end
            ∧ existsb is_summary_call t_end = false
      end.
Proof.
  intros chunks status. subst status chunks.
  rewrite run_cases, <- status_of_flags_derived with (db_pk := db_pk).
  pose proof (question_loop_question_phase w s3_key db_pk subscription_plan)
    as Hphase%question_phase_no_summary_call.
  set (s := after_questions w s3_key db_pk subscription_plan) in *.
  unfold status_of_flags, summary_events.
  destruct (success_at_least_once s); cbn [negb];
    [|exists (trace s); done].
  destruct (failed_at_least_once s);
    (destruct (summary_llm w) as [resp_dict|llm_response|];
     [destruct (resp_dict !! "summary")|..]);
    (exists (trace s); split; [done|]; eexists; split; reflexivity).
Qed.

(** C9.  The connection is closed on one path only.  On the
    COMPLETELY_FAILED return and on both summary-failure returns (the model
    call raised, or its answer has no [summary] key) the trace holds no
    [close] and the handler returns [None]; when the summary is obtained,
    the trace ends with the summary update, its commit and then the one
    [close], and the handler returns its response. *)
Theorem close_only_on_summary_success
    (w : world) (s3_key : string) (db_pk : Z) (subscription_plan : string) :
  let chunks := chunks_of (s3_object w s3_key) in
  let status :=
    derived_status (chunk_outcomes w subscription_plan (length chunks)) in
  let '(s, r) := run w (request s3_key db_pk subscription_plan) in
  match status, summary_of w with
  | COMPLETELY_FAILED, _ | _, None =>
      existsb is_close (trace s) = false ∧ r = inr None
  | _, Some summary =>
      ∃ t,
        trace s
        = t ++ [ExecuteQuery (UpdateDocumentSummary summary db_pk); Commit; Close]
        ∧ existsb is_close t = false
        ∧ r = inr (Some ok_response)
  end.
Proof.
  intros chunks status. subst status chunks.
  rewrite run_cases, <- status_of_flags_derived with (db_pk := db_pk).
  pose proof (question_loop_question_phase w s3_key db_pk subscription_plan)
    as Hphase%question_phase_no_close.
  set (s := after_questions w s3_key db_pk subscription_plan) in *.
  unfold status_of_flags, summary_events, summary_of.
  destruct (success_at_least_once s); cbn [negb].
  - destruct (failed_at_least_once s);
      (destruct (summary_llm w) as [resp_dict|llm_response|];
       [destruct (resp_dict !! "summary") as [summary|]|..]);
      cbn [trace set_trace];
      try (split; [by rewrite existsb_app, Hphase|done]);
      (eexists (trace s ++ [_; _; _]); split; [by rewrite <- app_assoc|];
       split; [by rewrite existsb_app, Hphase|done]).
  - destruct (summary_of w); cbn [trace set_trace];
      (split; [by rewrite existsb_app, Hphase|done]).
Qed.

(** C10.  When the decoded text of the document is empty there is no
    chunk: the only calls of the run are the COMPLETELY_FAILED status
    update and its commit (so no model call, no report, no question row and
    no summary attempt), and the handler returns [None]. *)
Theorem empty_document_is_completely_failed
    (w : world) (s3_key : string) (db_pk : Z) (subscription_plan : string) :
  s3_object w s3_key = "" →
  let '(s, r) := run w (request s3_key db_pk subscription_plan) in
  chunks_of (s3_object w s3_key) = []
  ∧ trace s
    = [ExecuteQuery (UpdateDocumentStatus COMPLETELY_FAILED db_pk); Commit]
  ∧ r = inr None
  ∧ existsb is_question_call (trace s) = false
  ∧ existsb is_summary_call (trace s) = false
  ∧ existsb is_report (trace s) = false
  ∧ question_rows (persisted (trace s)) = []
  ∧ status_updates (persisted (trace s)) = [(COMPLETELY_FAILED, db_pk)].
Proof.
  intros Hempty. unfold run, handler, process_document.
  cbn [request body_s3_key body_db_pk body_subscription_plan].
  rewrite Hempty. by vm_compute.
Qed.

Lemma empty_document_is_completely_failed_witness :
  let '(s, r) := run w_empty (request "k" 7 "FREE") in
  chunks_of (s3_object w_empty "k") = []
  ∧ trace s = [ExecuteQuery (UpdateDocumentStatus COMPLETELY_FAILED 7); Commit]
  ∧ r = inr None
  ∧ existsb is_question_call (trace s) = false
  ∧ existsb is_summary_call (trace s) = false
  ∧ existsb is_report (trace s) = false
  ∧ question_rows (persisted (trace s)) = []
  ∧ status_updates (persisted (trace s)) = [(COMPLETELY_FAILED, 7%Z)].
Proof.
  apply (empty_document_is_completely_failed w_empty "k" 7 "FREE").
  reflexivity.
Defined.

(** X1.  A body without one of its three fields: [ValueError] reaches the
    invoker before any collaborator is called. *)
Lemma handler_missing_field w b :
  body_s3_key b = None ∨ body_db_pk b = None ∨ body_subscription_plan b = None →
  ∃ msg, run w b = (initial_state, inl (ValueError msg)).
Proof.
  unfold run, handler.
  intros [H|[H|H]]; rewrite H;
    repeat (match goal with |- context [match ?o with _ => _ end] =>
              destruct o end); by eexists.
Qed.


(** ** The rows of a run under FREE or PRO: claims C2 and C5 *)

Lemma rows_from_app p db_pk n l1 l2 :
  rows_from p db_pk n (l1 ++ l2)
  = rows_from p db_pk n l1 ++ rows_from p db_pk (n + length l1) l2.
Proof.
  revert n. induction l1 as [|qa l1 IH]; intros n; simpl.
  - by rewrite Nat.add_0_r.
  - rewrite IH. do 3 f_equal. lia.
Qed.

Lemma rows_from_pairs p db_pk n pairs :
  map row_pair (rows_from p db_pk n pairs) = pairs.
Proof.
  revert n. induction pairs as [|[q a] pairs IH]; intros n; simpl; [done|].
  by rewrite IH.
Qed.

Lemma rows_from_length p db_pk n pairs :
  length (rows_from p db_pk n pairs) = length pairs.
Proof. by rewrite <- (length_map row_pair), rows_from_pairs. Qed.

Lemma question_rows_insert_of rows :
  question_rows (map insert_of rows) = rows.
Proof.
  induction rows as [|[] rows IH]; [done|].
  unfold question_rows in *. simpl. by f_equal.
Qed.

(** Under FREE the delivered flags of consecutive rows are ones up to the
    fifth question of the document and zeros from then on. *)
Lemma rows_from_free_delivered db_pk n pairs :
  map row_delivered_count (rows_from FREE db_pk n pairs)
  = replicate (length pairs `min` (5 - n)) 1
    ++ replicate (length pairs - (5 - n)) 0.
Proof.
  revert n. induction pairs as [|qa pairs IH]; intros n; [done|].
  simpl. rewrite IH.
  destruct (Nat.ltb_spec n 5) as [Hn|Hn].
  - replace (5 - n) with (S (5 - S n)) by lia. simpl. done.
  - replace (5 - n) with 0 by lia. replace (5 - S n) with 0 by lia.
    rewrite !Nat.min_0_r, !Nat.sub_0_r. done.
Qed.

Lemma rows_from_pro_delivered db_pk n pairs :
  map row_delivered_count (rows_from PRO db_pk n pairs)
  = replicate (length pairs) 1.
Proof.
  revert n. induction pairs as [|qa pairs IH]; intros n; [done|].
  simpl. by rewrite IH.
Qed.

Lemma exposed_after_exposure p n :
  exposed_after p (exposure p n) = exposure p (n + 1).
Proof.
  destruct p; unfold exposed_after, exposure; [|done].
  destruct (Nat.leb_spec 5 (n `min` 5)); lia.
Qed.

Lemma delivered_count_of_exposure p n :
  delivered_count_of p (exposure p n) = deliver p n.
Proof.
  destruct p; unfold delivered_count_of, exposure, deliver; [|done].
  destruct (Nat.leb_spec 5 (n `min` 5)), (Nat.ltb_spec n 5); lia.
Qed.

(** Accepting a list of pairs from a state with nothing pending and the
    exposure counter in step with the question counter. *)
Lemma accept_all p db_pk pairs s :
  pending (db_of (trace s)) = [] →
  free_plan_question_expose_count s
  = exposure p (total_generated_question_count s) →
  let s' := foldl (accept_question p db_pk) s pairs in
  db_of (trace s')
  = {| committed :=
         committed (db_of (trace s)) ++
         map insert_of
           (rows_from p db_pk (total_generated_question_count s) pairs);
       pending := [] |}
  ∧ total_generated_question_count s'
    = total_generated_question_count s + length pairs
  ∧ free_plan_question_expose_count s'
    = exposure p (total_generated_question_count s')
  ∧ prev_questions s' = foldl window_push (prev_questions s) (map fst pairs).
Proof.
  revert s. induction pairs as [|qa pairs IH]; intros s Hpending Hfree.
  - simpl. rewrite app_nil_r, Nat.add_0_r, <- Hpending.
    by destruct (db_of (trace s)).
  - cbn [foldl].
    destruct (IH (accept_question p db_pk s qa)) as (Hdb & Htotal & Hexp & Hwin).
    + simpl. rewrite db_of_app. simpl. done.
    + simpl. rewrite Hfree. apply exposed_after_exposure.
    + cbv zeta. rewrite Hdb, Hexp, !Htotal, Hwin. simpl.
      rewrite db_of_app. simpl. rewrite Hpending, Hfree.
      rewrite delivered_count_of_exposure, <- app_assoc.
      rewrite !Nat.add_1_r. repeat split; simpl; try done; lia.
Qed.


Lemma accepted_upto_S w k :
  accepted_upto w (S k) = accepted_upto w k ++ accepted_of (question_llm w k).
Proof.
  unfold accepted_upto. rewrite seq_S, flat_map_app. simpl.
  by rewrite app_nil_r.
Qed.

Section rows.
Variable w : world.
Variables (p : SubscriptionPlanType) (db_pk : Z).

Let plan := SubscriptionPlanType_value p.

Lemma generate_questions_rows k chunk s :
  rows_inv w p db_pk k s →
  rows_inv w p db_pk (S k) (generate_questions w plan db_pk chunk s).1.
Proof.
  intros (Hk & Hdb & Htotal & Hfree & Hwin). unfold rows_inv.
  rewrite accepted_upto_S, generate_questions_cases, Hk.
  assert (db_of (trace (after_call chunk s)) = db_of (trace s)) as Hcall
    by (simpl; by rewrite db_of_app).
  destruct (question_llm w k) as [resp_dict|llm_response|]; simpl.
  - destruct (for_each_q_sets_valid p db_pk resp_dict (after_call chunk s))
      as (r & Hloop & _).
    fold plan in Hloop. rewrite Hloop.
    destruct (accept_all p db_pk (accepted_pairs resp_dict) (after_call chunk s))
      as (Hdb' & Htotal' & Hfree' & Hwin');
      [by rewrite Hcall, Hdb|done|].
    pose proof (for_each_q_sets_frame plan db_pk resp_dict (after_call chunk s))
      as (_ & _ & Hcalls).
    rewrite Hloop in Hcalls. simpl in Hdb', Htotal', Hfree', Hwin', Hcalls.
    rewrite db_of_app, Hdb in Hdb'. simpl in Hdb'.
    rewrite rows_from_app, map_app, map_app, foldl_app, length_app.
    rewrite <- Hwin, <- Htotal, Nat.add_0_l.
    destruct r as [e|[]]; simpl; rewrite db_of_app, Hdb'; simpl;
      rewrite ?app_nil_r; repeat split; try done; lia.
  - rewrite !app_nil_r, !db_of_app, Hdb. simpl. repeat split; try done; lia.
  - rewrite !app_nil_r, !db_of_app, Hdb. simpl. repeat split; try done; lia.
Qed.

Variable s3_key : string.

Let chunks := chunks_of (s3_object w s3_key).

Lemma question_loop_rows :
  rows_inv w p db_pk (length chunks) (after_questions w s3_key db_pk plan).
Proof.
  unfold after_questions. fold chunks.
  destruct (for_each_count (rows_inv w p db_pk)
              (generate_questions w plan db_pk) chunks 0 initial_state)
    as [H _]; [|unfold rows_inv; simpl; by destruct p|exact H].
  intros k chunk s Hs. split; [by apply generate_questions_rows|].
  apply generate_questions_outcome.
Qed.

(** The rows, the question counter and the window at the end of a run. *)
Lemma run_rows :
  let s := (run w (request s3_key db_pk plan)).1 in
  let pairs := accepted_upto w (length chunks) in
  question_rows (persisted (trace s)) = rows_from p db_pk 0 pairs
  ∧ total_generated_question_count s = length pairs
  ∧ prev_questions s = foldl window_push [] (map fst pairs).
Proof.
  destruct question_loop_rows as (_ & Hdb & Htotal & _ & Hwin).
  cbv zeta. rewrite run_cases. unfold persisted, summary_events.
  set (s := after_questions w s3_key db_pk plan) in *.
  destruct (success_at_least_once s); cbn [negb fst];
    [destruct (summary_llm w) as [resp_dict|llm_response|];
     [destruct (resp_dict !! "summary")|..]|];
    cbn [trace set_trace total_generated_question_count prev_questions];
    rewrite db_of_app, Hdb; simpl;
    rewrite ?app_nil_r, ?question_rows_app, question_rows_insert_of;
    simpl; rewrite ?app_nil_r; done.
Qed.
End rows.

(** C5.  Under the FREE plan the rows persisted by a run are the generated
    questions in generation order, as many as the handler counted; the
    first [min N 5] of them carry [delivered_count = 1] and the remaining
    [N - 5] carry 0.  Under the PRO plan every generated question is
    persisted with [delivered_count = 1]. *)
Theorem delivered_count_follows_quota
    (w : world) (s3_key : string) (db_pk : Z) :
  let generated :=
    accepted_upto w (length (chunks_of (s3_object w s3_key))) in
  (let s := (run w (request s3_key db_pk (SubscriptionPlanType_value FREE))).1 in
   let rows := question_rows (persisted (trace s)) in
   let N := total_generated_question_count s in
   length rows = N
   ∧ map row_pair rows = generated
   ∧ map row_delivered_count rows
     = replicate (N `min` 5) 1 ++ replicate (N - 5) 0)
  ∧ (let s := (run w (request s3_key db_pk (SubscriptionPlanType_value PRO))).1 in
     let rows := question_rows (persisted (trace s)) in
     let N := total_generated_question_count s in
     length rows = N
     ∧ map row_pair rows = generated
     ∧ map row_delivered_count rows = replicate N 1).
Proof.
  intros generated. split.
  - destruct (run_rows w FREE db_pk s3_key) as (Hrows & Htotal & _).
    cbv zeta. rewrite Hrows, Htotal. fold generated.
    rewrite rows_from_length, rows_from_pairs, rows_from_free_delivered.
    by rewrite !Nat.sub_0_r.
  - destruct (run_rows w PRO db_pk s3_key) as (Hrows & Htotal & _).
    cbv zeta. rewrite Hrows, Htotal. fold generated.
    by rewrite rows_from_length, rows_from_pairs, rows_from_pro_delivered.
Qed.

Lemma accepted_pairs_before_bad pre bad post :
  forallb has_keys pre = true →
  has_keys bad = false →
  accepted_pairs (pre ++ bad :: post) = accepted_pairs pre
  ∧ Forall2 (λ q qa, q_pair q = Some qa) pre (accepted_pairs pre).
Proof.
  intros Hpre Hbad%has_keys_false.
  induction pre as [|q pre IH]; simpl in *.
  - by rewrite Hbad.
  - apply andb_true_iff in Hpre as [[qa Hq]%has_keys_true Hpre].
    destruct (IH Hpre) as [-> ?]. rewrite Hq. split; [done|].
    by constructor.
Qed.

Lemma accepted_upto_split w k n :
  k < n →
  accepted_upto w n
  = accepted_upto w k ++ accepted_of (question_llm w k)
    ++ accepted_between w (S k) n.
Proof.
  intros Hk. unfold accepted_upto, accepted_between.
  replace n with (k + S (n - S k)) at 1 by lia.
  rewrite seq_app, flat_map_app. simpl. done.
Qed.

(** C2, as the code has it.  Take a run under FREE or PRO and a chunk whose
    response is a list with an element lacking a key, all elements before
    it having both.  The pairs before the malformed element are persisted,
    in order, between the rows of the earlier chunks and those of the later
    ones; the malformed element and the elements after it leave no row; the
    chunk counts as a general failure. *)
Theorem rows_before_malformed_element_persist
    (w : world) (s3_key : string) (db_pk : Z) (p : SubscriptionPlanType)
    (k : nat) (pre : list q_set) (bad : q_set) (post : list q_set) :
  let plan := SubscriptionPlanType_value p in
  let n := length (chunks_of (s3_object w s3_key)) in
  let t := trace (run w (request s3_key db_pk plan)).1 in
  k < n →
  question_llm w k = Parsed (pre ++ bad :: post) →
  forallb has_keys pre = true →
  has_keys bad = false →
  ∃ pairs,
    Forall2 (λ q qa, q_pair q = Some qa) pre pairs
    ∧ map row_pair (question_rows (persisted t))
      = accepted_upto w k ++ pairs ++ accepted_between w (S k) n
    ∧ chunk_outcome plan (question_llm w k) = GeneralFailure.
Proof.
  intros plan n t Hk Hresp Hpre Hbad. subst t plan n.
  destruct (accepted_pairs_before_bad pre bad post Hpre Hbad) as [Hacc Hpairs].
  exists (accepted_pairs pre). split; [done|].
  destruct (run_rows w p db_pk s3_key) as (-> & _).
  rewrite rows_from_pairs, (accepted_upto_split w k _ Hk), Hresp. simpl.
  rewrite Hacc. split; [done|].
  destruct pre; simpl in *.
  - by rewrite Hbad, andb_false_r.
  - apply andb_true_iff in Hpre as [-> Hpre]. simpl.
    by rewrite forallb_app, Hpre, (proj2 (valid_plan_true _) (ex_intro _ p eq_refl)); simpl;
      rewrite Hbad.
Qed.

Lemma rows_before_malformed_element_persist_witness :
  ∃ pairs,
    Forall2 (λ q qa, q_pair q = Some qa) [qa_dict "q1" "a1"] pairs
    ∧ map row_pair
        (question_rows
           (persisted (trace (run w_malformed (request "k" 7 "FREE")).1)))
      = accepted_upto w_malformed 0 ++ pairs
        ++ accepted_between w_malformed 1
             (length (chunks_of (s3_object w_malformed "k")))
    ∧ chunk_outcome "FREE" (question_llm w_malformed 0) = GeneralFailure.
Proof.
  apply (rows_before_malformed_element_persist w_malformed "k" 7 FREE 0
           [qa_dict "q1" "a1"] (question_only "q2") [qa_dict "q3" "a3"]).
  - vm_compute. lia.
  - reflexivity.
  - reflexivity.
  - reflexivity.
Defined.

(** C2 as the specification states it fails on [w_malformed]: the chunk is a general failure
    because its second element has no answer, and the first pair is
    persisted all the same. *)
Lemma malformed_chunk_leaves_a_row :
  let t := trace (run w_malformed (request "k" 7 "FREE")).1 in
  chunk_outcome "FREE" (question_llm w_malformed 0) = GeneralFailure
  ∧ question_rows (persisted t)
    = [{| row_question := "q1"; row_answer := "a1"; row_document_id := 7;
          row_delivered_count := 1 |}]
  ∧ question_rows (persisted t) ≠ [].
Proof. by vm_compute. Qed.

(** C1 as the specification states it fails on [w_all_failed]: the status COMPLETELY_FAILED is
    persisted and the summary model is not called, although it would have
    returned a summary. *)
Lemma completely_failed_run_skips_summary :
  let t := trace (run w_all_failed (request "k" 7 "FREE")).1 in
  status_updates (persisted t) = [(COMPLETELY_FAILED, 7%Z)]
  ∧ summary_of w_all_failed = Some "text"
  ∧ existsb is_summary_call t = false.
Proof. by vm_compute. Qed.

(** C3 at a failing input: plan "BASIC" on a two-chunk document.  The
    [ValueError] raised for the first question of each chunk is caught by
    the handler of the element loop: it is reported as a general failure
    with the missing-keys message, the loop goes on to the second chunk,
    and the handler returns normally after writing COMPLETELY_FAILED. *)
Theorem wrong_plan_is_caught_per_chunk :
  let '(s, r) := run w_two_chunks (request "k" 7 "BASIC") in
  r = inr None
  ∧ trace s
    = [PredictJson (GenerateQuestions (str_repeat "a" 1100) "");
       ReportLLMError QuestionGeneration GENERAL (str_repeat "a" 1100) None
         (MissingQuestionAnswerKeys [qa_dict "q" "a"]);
       PredictJson (GenerateQuestions "a" "q");
       ReportLLMError QuestionGeneration GENERAL "a" None
         (MissingQuestionAnswerKeys [qa_dict "q" "a"]);
       ExecuteQuery (UpdateDocumentStatus COMPLETELY_FAILED 7);
       Commit].
Proof. by vm_compute. Qed.

(** ** The window of recent questions: claim C4 *)

Lemma remember_question_push question s :
  remember_question question s
  = (set_prev_questions (window_push (prev_questions s) question) s, inr tt).
Proof.
  unfold remember_question, window_push. mrun_outer. simpl.
  by destruct (_ =? 6).
Qed.

Lemma for_each_remember_question qs s :
  for_each qs remember_question s
  = (set_prev_questions (foldl window_push (prev_questions s) qs) s, inr tt).
Proof.
  revert s. induction qs as [|q qs IH]; intros s; [by destruct s|].
  by rewrite for_each_cons, remember_question_push, IH.
Qed.

(** Pushing onto a window of at most five entries leaves the last five of
    everything seen. *)
Lemma window_last_five l qs :
  length l ≤ 5 →
  foldl window_push l qs = drop (length (l ++ qs) - 5) (l ++ qs).
Proof.
  revert l. induction qs as [|q qs IH]; intros l Hl.
  - rewrite app_nil_r. simpl. by replace (length l - 5) with 0 by lia.
  - simpl. rewrite (IH _ (window_push_length l q Hl)).
    unfold window_push.
    destruct (Nat.eqb_spec (length (l ++ [q])) 6) as [H6|H6];
      rewrite length_app in H6; simpl in H6.
    + destruct l as [|x l]; [simpl in H6; lia|].
      cbn [tail app length] in *. rewrite <- app_assoc. cbn [app].
      replace (length (l ++ q :: qs) - 5) with (length qs)
        by (rewrite length_app; simpl; lia).
      replace (S (length (l ++ q :: qs)) - 5) with (S (length qs))
        by (rewrite length_app; simpl; lia).
      done.
    + by rewrite <- !app_assoc.
Qed.

(** C4, as the code has it.  The window is always the last five questions
    appended: the oldest entry goes as soon as the sixth arrives, so the
    window never holds more than five entries between two questions.  After
    the seventh append the first two entries are gone and entries 3 to 7
    remain, in their original order.  At the end of any run the window
    holds at most five entries, and under FREE or PRO it holds the last
    five generated questions. *)
Theorem window_keeps_last_five :
  (∀ qs : list string,
     let s := (for_each qs remember_question initial_state).1 in
     prev_questions s = drop (length qs - 5) qs
     ∧ length (prev_questions s) ≤ 5)
  ∧ (∀ q1 q2 q3 q4 q5 q6 q7 : string,
       prev_questions
         (for_each [q1; q2; q3; q4; q5; q6; q7] remember_question
            initial_state).1
       = [q3; q4; q5; q6; q7])
  ∧ (∀ w s3_key db_pk subscription_plan,
       length
         (prev_questions (run w (request s3_key db_pk subscription_plan)).1)
       ≤ 5)
  ∧ (∀ w s3_key db_pk p,
       let generated :=
         map fst (accepted_upto w (length (chunks_of (s3_object w s3_key)))) in
       prev_questions
         (run w (request s3_key db_pk (SubscriptionPlanType_value p))).1
       = drop (length generated - 5) generated).
Proof.
  split; [|split; [|split]].
  - intros qs. cbv zeta. rewrite for_each_remember_question. simpl.
    rewrite (window_last_five [] qs) by (simpl; lia). simpl.
    split; [done|]. rewrite length_drop. lia.
  - intros. by rewrite for_each_remember_question.
  - intros w s3_key db_pk subscription_plan. rewrite run_cases.
    pose proof (question_loop_window w s3_key db_pk subscription_plan).
    by destruct (negb _).
  - intros w s3_key db_pk p generated.
    destruct (run_rows w p db_pk s3_key) as (_ & _ & ->).
    fold generated. by rewrite (window_last_five [] generated) by (simpl; lia).
Qed.

(** C4 as the specification states it fails on [w_seven]: after seven questions the window holds
    five entries, the second question is not among them. *)
Lemma seventh_question_evicts_second :
  let window := prev_questions (run w_seven (request "k" 7 "PRO")).1 in
  window = ["q3"; "q4"; "q5"; "q6"; "q7"]
  ∧ window ≠ ["q2"; "q3"; "q4"; "q5"; "q6"; "q7"]
  ∧ "q2" ∉ window.
Proof.
  assert (prev_questions (run w_seven (request "k" 7 "PRO")).1
          = ["q3"; "q4"; "q5"; "q6"; "q7"]) as Hwindow by (by vm_compute).
  cbv zeta. rewrite Hwindow. split; [done|]. split; [done|].
  intros H%list_elem_of_In. simpl in H.
  repeat (destruct H as [H|H]; [discriminate H|]). done.
Qed.

(** ** The summary input: claim C8 *)

Lemma str_app_nil_r s : s +:+ "" = s.
Proof.
  induction s as [|c s IH]; [done|].
  change (String c (s +:+ "") = String c s). by rewrite IH.
Qed.

Lemma str_app_assoc s1 s2 s3 : (s1 +:+ s2) +:+ s3 = s1 +:+ (s2 +:+ s3).
Proof.
  induction s1 as [|c s1 IH]; [done|].
  change (String c ((s1 +:+ s2) +:+ s3) = String c (s1 +:+ (s2 +:+ s3))).
  by rewrite IH.
Qed.

Local Arguments str_take : simpl never.

Lemma summary_input_loop_prefixes chunks summary_input :
  ∃ k,
    k ≤ length chunks
    ∧ summary_input_loop summary_input chunks
      = summary_input +:+ str_concat (map (str_take 600) (take k chunks))
    ∧ (∀ j, 0 < j < k →
         String.length
           (summary_input +:+ str_concat (map (str_take 600) (take j chunks)))
         ≤ 2000)
    ∧ (k < length chunks →
       2000 < String.length (summary_input_loop summary_input chunks))
    ∧ (chunks ≠ [] → 0 < k).
Proof.
  revert summary_input.
  induction chunks as [|chunk chunks IH]; intros summary_input.
  - exists 0. simpl. rewrite str_app_nil_r. repeat split; try done; lia.
  - simpl.
    destruct (Nat.ltb_spec 2000
                (String.length (summary_input +:+ str_take 600 chunk)))
      as [Hlong|Hshort].
    + exists 1. simpl. rewrite ?take_0. simpl. rewrite str_app_nil_r.
      repeat split; try done; lia.
    + destruct (IH (summary_input +:+ str_take 600 chunk))
        as (k & Hk & Heq & Hbelow & Hbreak & _).
      exists (S k). simpl. rewrite Heq, str_app_assoc.
      repeat split; try done; try lia.
      * intros [|j] Hj; [lia|]. simpl.
        destruct j as [|j].
        -- rewrite ?take_0. simpl. by rewrite str_app_nil_r.
        -- rewrite <- str_app_assoc. apply Hbelow. lia.
      * intros Hlt. rewrite <- str_app_assoc, <- Heq. apply Hbreak. lia.
Qed.

(** C8.  The summary input is the concatenation of the 600-character
    prefixes of the first [k] chunks, whole and in order, for the [k]
    at which the loop stops: the total was at most 2000 after each
    earlier prefix, and when chunks are left over the total has passed
    2000 with the last prefix appended and stays as it is. *)
Theorem summary_input_takes_whole_prefixes (chunks : list string) :
  ∃ k,
    k ≤ length chunks
    ∧ build_summary_input chunks
      = str_concat (map (str_take 600) (take k chunks))
    ∧ (∀ j, j < k →
         String.length (str_concat (map (str_take 600) (take j chunks)))
         ≤ 2000)
    ∧ (k < length chunks → 2000 < String.length (build_summary_input chunks))
    ∧ (chunks ≠ [] → 0 < k).
Proof.
  destruct (summary_input_loop_prefixes chunks "")
    as (k & Hk & Heq & Hbelow & Hbreak & Hpos).
  exists k. unfold build_summary_input. repeat split; try done.
  intros [|j] Hj; [rewrite take_0; simpl; lia|].
  apply (Hbelow (S j)). lia.
Qed.

(** Five chunks of 1100 characters: four prefixes are taken and the input
    has 2400 characters. *)
Example summary_input_example :
  let chunks := replicate 5 (str_repeat "a" 1100) in
  build_summary_input chunks
  = str_concat (map (str_take 600) (take 4 chunks))
  ∧ String.length (build_summary_input chunks) = 2400.
Proof. by vm_compute. Qed.

(** ** The end-to-end scenarios of the specification *)

Example scenario_a :
  let t := trace (run w_scenario_a (request "k" 7 "FREE")).1 in
  map String.length (chunks_of (s3_object w_scenario_a "k")) = [1100; 1100; 1100]
  ∧ map row_delivered_count (question_rows (persisted t)) = [1; 1; 1; 1; 1; 0]
  ∧ status_updates (persisted t) = [(PROCESSED, 7%Z)].
Proof. by vm_compute. Qed.

Example scenario_b :
  let t := trace (run w_scenario_b (request "k" 7 "FREE")).1 in
  status_updates (persisted t) = [(PARTIAL_SUCCESS, 7%Z)]
  ∧ reports t
    = [ReportLLMError QuestionGeneration INVALID_JSON_FORMAT
         (str_repeat "a" 1100) (Some "oops") NotJsonDecodable]
  ∧ question_rows (persisted t)
    = [{| row_question := "q"; row_answer := "a"; row_document_id := 7;
          row_delivered_count := 1 |}].
Proof. by vm_compute. Qed.

Example scenario_c :
  let t := trace (run w_scenario_c (request "k" 7 "FREE")).1 in
  status_updates (persisted t) = [(COMPLETELY_FAILED, 7%Z)]
  ∧ question_rows (persisted t) = []
  ∧ length (reports t) = 2.
Proof. by vm_compute. Qed.

Example scenario_d :
  let t := trace (run w_scenario_d (request "k" 7 "FREE")).1 in
  status_updates (persisted t) = [(PROCESSED, 7%Z)]
  ∧ summary_updates (persisted t) = []
  ∧ reports t
    = [ReportLLMError SummaryGeneration INVALID_JSON_FORMAT
         (str_repeat "a" 600 +:+ "a") (Some "oops") NotJsonDecodable].
Proof. by vm_compute. Qed.

(** * Further properties of the handler *)

(** ** Loops, once more *)

(** A property indexed by the elements already handled, when no iteration
    raises. *)
Lemma for_each_prefix {A} (I : list A → state → Prop) (body : A → M unit)
    l pre s :
  (∀ pre x s, I pre s → I (pre ++ [x]) (body x s).1 ∧ (body x s).2 = inr tt) →
  I pre s →
  I (pre ++ l) (for_each l body s).1.
Proof.
  intros Hbody. revert pre s.
  induction l as [|x l IH]; intros pre s Hs.
  - by rewrite app_nil_r.
  - rewrite for_each_cons. destruct (Hbody pre x s Hs) as [Hs' Hr].
    destruct (body x s) as [s' r]; simpl in *; subst r.
    rewrite cons_middle, app_assoc. by apply IH.
Qed.

(** ** What is sent where *)

Lemma for_each_q_sets_appends plan db_pk resp_dict s :
  ∃ t,
    trace (for_each resp_dict (process_q_set plan db_pk) s).1 = trace s ++ t
    ∧ forallb is_insert_or_commit t = true.
Proof.
  apply (for_each_inv
           (λ s1, ∃ t, trace s1 = trace s ++ t
                       ∧ forallb is_insert_or_commit t = true));
    [|exists []; by rewrite app_nil_r].
  intros q s0 (t & Ht & Hall).
  destruct (process_q_set_cases plan db_pk q s0)
    as [(key & _ & ->)|[(qa & _ & _ & ->)|(qa & p & _ & _ & ->)]];
    simpl; [by exists t..|].
  eexists (t ++ [_; _]). rewrite Ht, <- app_assoc. split; [done|].
  by rewrite forallb_app, Hall.
Qed.

Lemma insert_or_commit_chunk_tail t :
  forallb is_insert_or_commit t = true → forallb is_chunk_tail t = true.
Proof.
  induction t as [|e t IH]; [done|]. simpl.
  intros [He Ht]%andb_true_iff. rewrite (IH Ht), andb_true_r.
  by destruct e as [[]| [] | [] | |].
Qed.

(** After its model call a chunk sends reports about question generation,
    inserts and commits only. *)
Lemma generate_questions_appends w plan db_pk chunk s :
  ∃ t,
    trace (generate_questions w plan db_pk chunk s).1
    = trace (after_call chunk s) ++ t
    ∧ forallb is_chunk_tail t = true.
Proof.
  rewrite generate_questions_cases.
  destruct (question_llm w (llm_calls s)) as [resp_dict|llm_response|];
    [|by eexists [_]..].
  destruct (for_each_q_sets_appends plan db_pk resp_dict (after_call chunk s))
    as (t & Ht & Hall%insert_or_commit_chunk_tail).
  destruct (for_each resp_dict _ _) as [s1 [e|[]]]; cbn [fst] in Ht;
    eexists (t ++ [_]);
    (split; [cbn [fst trace after_failure after_success set_trace
                  set_failed_at_least_once set_success_at_least_once];
             by rewrite Ht, <- app_assoc|]);
    by rewrite forallb_app, Hall.
Qed.

Lemma chunk_tail_no_prompt t :
  forallb is_chunk_tail t = true → question_prompts t = [].
Proof.
  induction t as [|e t IH]; [done|]. simpl.
  intros [He Ht]%andb_true_iff. unfold question_prompts in *. simpl.
  rewrite (IH Ht). by destruct e as [[]| [] | [] | |].
Qed.

Lemma run_tail_no_prompt t :
  forallb is_run_tail t = true → question_prompts t = [].
Proof.
  induction t as [|e t IH]; [done|]. simpl.
  intros [He Ht]%andb_true_iff. unfold question_prompts in *. simpl.
  rewrite (IH Ht). by destruct e as [[]| [] | [] | |].
Qed.

Lemma run_tail_no_question_report t :
  forallb is_run_tail t = true → question_reports t = [].
Proof.
  induction t as [|e t IH]; [done|]. simpl.
  intros [He Ht]%andb_true_iff. unfold question_reports in *. simpl.
  rewrite (IH Ht). by destruct e as [[]| [] | [] | |].
Qed.

Lemma run_tail_no_insert t :
  forallb is_run_tail t = true → question_rows (executed t) = [].
Proof.
  induction t as [|e t IH]; [done|]. simpl.
  intros [He Ht]%andb_true_iff. specialize (IH Ht).
  unfold question_rows, executed in *.
  destruct e as [[]| [] | [] | |]; simpl in *; done.
Qed.

(** The events that follow the chunk loop, and what they leave untouched. *)
Lemma run_tail w s3_key db_pk plan :
  let s := (run w (request s3_key db_pk plan)).1 in
  let s_loop := after_questions w s3_key db_pk plan in
  ∃ t,
    trace s = trace s_loop ++ t
    ∧ forallb is_run_tail t = true
    ∧ free_plan_question_expose_count s = free_plan_question_expose_count s_loop
    ∧ llm_calls s = llm_calls s_loop.
Proof.
  cbv zeta. rewrite run_cases. unfold summary_events.
  destruct (negb _); cbn [fst trace set_trace]; [by eexists|].
  destruct (summary_llm w) as [resp_dict|llm_response|];
    [destruct (resp_dict !! "summary")|..]; by eexists.
Qed.

(** ** One model call per chunk *)

Lemma question_prompts_app t t' :
  question_prompts (t ++ t') = question_prompts t ++ question_prompts t'.
Proof. unfold question_prompts. by rewrite omap_app. Qed.

Lemma question_reports_app t t' :
  question_reports (t ++ t') = question_reports t ++ question_reports t'.
Proof. unfold question_reports. by rewrite omap_app. Qed.

Lemma executed_app t t' : executed (t ++ t') = executed t ++ executed t'.
Proof. unfold executed. by rewrite omap_app. Qed.


(** ** The dedup hint *)

(** X4.  Under FREE or PRO the prompt for chunk [k] carries, as previous
    questions, the last five questions accepted from chunks [0 .. k-1],
    joined by newlines (nothing for the first chunk): the window is
    threaded from chunk to chunk in generation order. *)
Theorem prompts_carry_last_five_questions
    (w : world) (s3_key : string) (db_pk : Z) (p : SubscriptionPlanType) :
  let chunks := chunks_of (s3_object w s3_key) in
  let s := (run w (request s3_key db_pk (SubscriptionPlanType_value p))).1 in
  question_prompts (trace s)
  = zip chunks (map (dedup_hint w) (seq 0 (length chunks))).
Proof.
  cbv zeta.
  destruct (run_tail w s3_key db_pk (SubscriptionPlanType_value p))
    as (t & -> & Ht%run_tail_no_prompt & _).
  rewrite question_prompts_app, Ht, app_nil_r. unfold after_questions.
  refine (proj2 (for_each_prefix
           (λ pre s, rows_inv w p db_pk (length pre) s
                     ∧ question_prompts (trace s)
                       = zip pre (map (dedup_hint w) (seq 0 (length pre))))
           (generate_questions w (SubscriptionPlanType_value p) db_pk)
           (chunks_of (s3_object w s3_key)) [] initial_state _ _)).
  - intros pre chunk s [Hrows Hprompts].
    split; [|apply generate_questions_outcome].
    rewrite length_app, Nat.add_1_r.
    split; [by apply generate_questions_rows|].
    destruct (generate_questions_appends w (SubscriptionPlanType_value p)
                db_pk chunk s) as (t' & -> & Ht'%chunk_tail_no_prompt).
    cbn [trace after_call set_trace].
    rewrite !question_prompts_app, Ht', app_nil_r, Hprompts.
    rewrite seq_S, map_app, zip_with_app by (by rewrite length_map, length_seq).
    destruct Hrows as (_ & _ & _ & _ & ->).
    rewrite (window_last_five [] _) by (simpl; lia). done.
  - split; [|done]. unfold rows_inv. simpl. by destruct p.
Qed.

(** ** The notifier *)

Lemma question_reports_of_reports t :
  question_reports (reports t) = question_reports t.
Proof.
  unfold question_reports, reports.
  induction t as [|e t IH]; [done|].
  destruct e as [[]| [] | [] | |]; simpl; try done.
  f_equal. exact IH.
Qed.

(** X5.  The reports about question generation are, in chunk order, one
    per chunk that did not reach Success and none for a chunk that did:
    an invalid-format report for a response that is not JSON, a general
    report for any other failure, each carrying the text of its chunk. *)
Theorem one_report_per_failed_chunk
    (w : world) (s3_key : string) (db_pk : Z) (subscription_plan : string) :
  let chunks := chunks_of (s3_object w s3_key) in
  let outcomes := chunk_outcomes w subscription_plan (length chunks) in
  let t := trace (run w (request s3_key db_pk subscription_plan)).1 in
  question_reports t
  = omap (λ co, report_of_outcome co.1 co.2) (zip chunks outcomes).
Proof.
  cbv zeta.
  destruct (run_tail w s3_key db_pk subscription_plan)
    as (t & -> & Ht%run_tail_no_question_report & _).
  rewrite question_reports_app, Ht, app_nil_r. unfold after_questions.
  refine (proj2 (for_each_prefix
           (λ pre s, llm_calls s = length pre
                     ∧ question_reports (trace s)
                       = omap (λ co, report_of_outcome co.1 co.2)
                           (zip pre (chunk_outcomes w subscription_plan
                                       (length pre))))
           (generate_questions w subscription_plan db_pk)
           (chunks_of (s3_object w s3_key)) [] initial_state _ _));
    [|done].
  intros pre chunk s [Hcalls Hreports].
  destruct (generate_questions_outcome w subscription_plan db_pk chunk s)
    as (Hr & Hcalls' & _).
  split; [|done].
  rewrite length_app, Nat.add_1_r. split; [by rewrite Hcalls', Hcalls|].
  destruct (generate_questions_report w subscription_plan db_pk chunk s)
    as (t' & -> & Hout).
  cbn [trace after_call set_trace].
  rewrite !question_reports_app, Hreports, chunk_outcomes_S.
  rewrite zip_with_app by (unfold chunk_outcomes; by rewrite length_map, length_seq).
  rewrite omap_app, <- app_assoc. f_equal.
  rewrite <- (question_reports_of_reports t'). rewrite Hcalls in Hout.
  simpl.
  destruct (chunk_outcome subscription_plan (question_llm w (length pre)));
    [rewrite Hout|destruct Hout as [? ->]..]; done.
Qed.

(** ** The shape of a trace *)

Lemma delivered_count_of_le p exposed : delivered_count_of p exposed ≤ 1.
Proof.
  destruct p; unfold delivered_count_of; [destruct (5 <=? exposed)|]; lia.
Qed.

Lemma exposed_after_le p exposed : exposed ≤ 5 → exposed_after p exposed ≤ 5.
Proof.
  destruct p; unfold exposed_after; [|done].
  destruct (Nat.leb_spec 5 exposed); lia.
Qed.

(** Every trace of the handler is built from the empty trace by appending
    either one event that is not a statement, or one statement of the
    handler followed at once by its commit.  A property of traces kept by
    these two steps holds of every run. *)
Lemma run_trace_induction (T : list event → Prop)
    (w : world) (s3_key : string) (db_pk : Z) (subscription_plan : string) :
  T [] →
  (∀ t e, T t → (∀ q, e ≠ ExecuteQuery q) → T (t ++ [e])) →
  (∀ t q, T t → handler_query subscription_plan db_pk q →
          T (t ++ [ExecuteQuery q; Commit])) →
  T (trace (run w (request s3_key db_pk subscription_plan)).1).
Proof.
  intros Hnil Hone Hpair.
  assert (∀ resp_dict s, T (trace s) →
            T (trace (for_each resp_dict
                        (process_q_set subscription_plan db_pk) s).1))
    as Helements.
  { intros resp_dict s. apply (for_each_inv (λ s, T (trace s))).
    intros q s0 Hs0.
    destruct (process_q_set_cases subscription_plan db_pk q s0)
      as [(key & _ & ->)|[(qa & _ & _ & ->)|(qa & p & _ & -> & ->)]];
      simpl; [done..|].
    apply Hpair; [done|]. cbn [handler_query]. split; [done|].
    split; [apply delivered_count_of_le|by destruct p]. }
  assert (T (trace (after_questions w s3_key db_pk subscription_plan)))
    as Hloop.
  { unfold after_questions. apply (for_each_inv (λ s, T (trace s))); [|done].
    intros chunk s Hs. rewrite generate_questions_cases.
    assert (T (trace (after_call chunk s))) as Hcall
      by (simpl; by apply Hone).
    destruct (question_llm w (llm_calls s)) as [resp_dict|llm_response|];
      [|simpl; by apply Hone..].
    specialize (Helements resp_dict _ Hcall).
    destruct (for_each resp_dict _ _) as [s1 [e|[]]]; simpl in *;
      by apply Hone. }
  rewrite run_cases. unfold summary_events.
  set (s := after_questions w s3_key db_pk subscription_plan) in *.
  destruct (negb _); cbn [fst trace set_trace]; [by apply Hpair|].
  assert (∀ st, T (trace s ++ [ExecuteQuery (UpdateDocumentStatus st db_pk);
                               Commit])) as Hstatus
    by (intros st; by apply Hpair).
  destruct (summary_llm w) as [resp_dict|llm_response|];
    [destruct (resp_dict !! "summary") as [summary|]|..].
  - rewrite (app_assoc (trace s)).
    change (?t ++ [?a; ?b; ?c; ?d]) with (t ++ [a] ++ [b; c] ++ [d]).
    rewrite !app_assoc. apply Hone; [|done].
    apply Hpair; [|done]. by apply Hone.
  - rewrite (app_assoc (trace s)).
    change (?t ++ [?a; ?b]) with (t ++ [a] ++ [b]).
    rewrite !app_assoc. apply Hone; [|done]. by apply Hone.
  - rewrite (app_assoc (trace s)).
    change (?t ++ [?a; ?b]) with (t ++ [a] ++ [b]).
    rewrite !app_assoc. apply Hone; [|done]. by apply Hone.
  - rewrite (app_assoc (trace s)).
    change (?t ++ [?a; ?b]) with (t ++ [a] ++ [b]).
    rewrite !app_assoc. apply Hone; [|done]. by apply Hone.
Qed.

(** ** Commits *)

Lemma run_all_committed w s3_key db_pk subscription_plan :
  all_committed (trace (run w (request s3_key db_pk subscription_plan)).1).
Proof.
  apply run_trace_induction; unfold all_committed.
  - done.
  - intros t e Ht He. rewrite db_of_app, Ht, executed_app.
    destruct e as [m|? ? ? ? ?|q| |]; simpl; rewrite ?app_nil_r; try done.
    by destruct (He q).
  - intros t q Ht _. rewrite db_of_app, Ht, executed_app. done.
Qed.

(** X7.  When the handler returns, every statement it sent to the database
    has been committed: the persisted statements are all the executed ones,
    in order, and nothing is left pending on the connection. *)
Theorem every_statement_is_committed
    (w : world) (s3_key : string) (db_pk : Z) (subscription_plan : string) :
  let t := trace (run w (request s3_key db_pk subscription_plan)).1 in
  persisted t = executed t ∧ pending (db_of t) = [].
Proof.
  cbv zeta. unfold persisted.
  by rewrite (run_all_committed w s3_key db_pk subscription_plan).
Qed.

(** ** The rows sent *)

Lemma executed_rows_wf w s3_key db_pk subscription_plan :
  Forall (λ r, row_document_id r = db_pk ∧ row_delivered_count r ≤ 1
               ∧ valid_plan subscription_plan = true)
    (question_rows
       (executed (trace (run w (request s3_key db_pk subscription_plan)).1))).
Proof.
  apply run_trace_induction.
  - constructor.
  - intros t e Ht He. rewrite executed_app.
    destruct e as [m|? ? ? ? ?|q| |]; simpl; rewrite ?app_nil_r; try done.
    by destruct (He q).
  - intros t q Ht Hq. rewrite executed_app, question_rows_app.
    apply Forall_app. split; [done|].
    destruct q; simpl in *; [|constructor..].
    constructor; [exact Hq|constructor].
Qed.

(** X9.  Every question row the handler inserts belongs to the document of
    the request and carries a delivered flag of 0 or 1. *)
Theorem inserted_rows_are_well_formed
    (w : world) (s3_key : string) (db_pk : Z) (subscription_plan : string) :
  let t := trace (run w (request s3_key db_pk subscription_plan)).1 in
  Forall (λ r, row_document_id r = db_pk
               ∧ (row_delivered_count r = 0 ∨ row_delivered_count r = 1))
    (question_rows (executed t)).
Proof.
  cbv zeta.
  eapply Forall_impl; [apply executed_rows_wf|].
  intros r (Hid & Hflag & _). split; [done|lia].
Qed.

(** X10.  Under a plan that is neither FREE nor PRO the handler sends no
    insert at all, whatever the model answers: no question row is executed,
    let alone persisted. *)
Theorem unknown_plan_inserts_nothing
    (w : world) (s3_key : string) (db_pk : Z) (subscription_plan : string) :
  valid_plan subscription_plan = false →
  let t := trace (run w (request s3_key db_pk subscription_plan)).1 in
  question_rows (executed t) = [] ∧ question_rows (persisted t) = [].
Proof.
  intros Hplan. cbv zeta.
  pose proof (executed_rows_wf w s3_key db_pk subscription_plan) as Hwf.
  assert (question_rows
            (executed (trace (run w (request s3_key db_pk subscription_plan)).1))
          = []) as Hnone.
  { destruct (question_rows _) as [|r rows]; [done|].
    apply Forall_cons in Hwf as [(_ & _ & Hvalid) _]. congruence. }
  split; [done|]. unfold persisted.
  by rewrite (run_all_committed w s3_key db_pk subscription_plan).
Qed.

Lemma unknown_plan_inserts_nothing_witness :
  let t := trace (run w_two_chunks (request "k" 7 "BASIC")).1 in
  question_rows (executed t) = [] ∧ question_rows (persisted t) = [].
Proof.
  apply (unknown_plan_inserts_nothing w_two_chunks "k" 7 "BASIC").
  reflexivity.
Defined.

(** ** The summary *)

Lemma question_phase_no_summary t :
  forallb is_question_phase t = true →
  summary_updates (executed t) = [] ∧ summary_reports t = [].
Proof.
  induction t as [|e t IH]; [done|]. simpl.
  intros [He Ht]%andb_true_iff. destruct (IH Ht) as [IH1 IH2].
  unfold summary_updates, summary_reports, executed in *.
  destruct e as [[]| [] | [] | |]; simpl in *; done.
Qed.

Lemma summary_updates_app qs qs' :
  summary_updates (qs ++ qs') = summary_updates qs ++ summary_updates qs'.
Proof. unfold summary_updates. by rewrite omap_app. Qed.

Lemma summary_reports_app t t' :
  summary_reports (t ++ t') = summary_reports t ++ summary_reports t'.
Proof. unfold summary_reports. by rewrite omap_app. Qed.

(** X6.  What a run leaves of the summary step.  Under COMPLETELY_FAILED
    there is neither a summary nor a summary report.  Otherwise: a
    response that is not JSON gives one invalid-format report carrying the
    summary input and the raw response; any other failure of the call, or
    an answer without the [summary] key, gives one general report; in
    these cases no summary is persisted.  Only an answer with the key
    persists the summary, for the document of the request, and then
    nothing is reported. *)
Theorem summary_persisted_or_reported
    (w : world) (s3_key : string) (db_pk : Z) (subscription_plan : string) :
  let chunks := chunks_of (s3_object w s3_key) in
  let status :=
    derived_status (chunk_outcomes w subscription_plan (length chunks)) in
  let summary_input := build_summary_input chunks in
  let t := trace (run w (request s3_key db_pk subscription_plan)).1 in
  (summary_updates (persisted t), summary_reports t)
  = match status with
    | COMPLETELY_FAILED => ([], [])
    | _ =>
        match summary_llm w with
        | NotJson llm_response =>
            ([], [(INVALID_JSON_FORMAT, summary_input, Some llm_response)])
        | Failed => ([], [(GENERAL, summary_input, None)])
        | Parsed resp_dict =>
            match resp_dict !! "summary" with
            | None => ([], [(GENERAL, summary_input, None)])
            | Some summary => ([(summary, db_pk)], [])
            end
        end
    end.
Proof.
  cbv zeta. unfold persisted.
  rewrite (run_all_committed w s3_key db_pk subscription_plan).
  cbn [committed].
  rewrite run_cases, <- status_of_flags_derived with (db_pk := db_pk).
  destruct (question_phase_no_summary _
              (question_loop_question_phase w s3_key db_pk subscription_plan))
    as [Hupdates Hreports].
  set (s := after_questions w s3_key db_pk subscription_plan) in *.
  unfold status_of_flags, summary_events.
  destruct (success_at_least_once s); cbn [negb fst trace set_trace];
    rewrite executed_app, summary_updates_app, summary_reports_app,
      Hupdates, Hreports; [|done].
  destruct (failed_at_least_once s);
    (destruct (summary_llm w) as [resp_dict|llm_response|];
     [destruct (resp_dict !! "summary")|..]); done.
Qed.

(** ** The exposure counter *)

Lemma question_loop_exposed w s3_key db_pk subscription_plan :
  free_plan_question_expose_count
    (after_questions w s3_key db_pk subscription_plan) ≤ 5.
Proof.
  unfold after_questions.
  apply (for_each_inv (λ s, free_plan_question_expose_count s ≤ 5));
    [|simpl; lia].
  intros chunk s Hs. rewrite generate_questions_cases.
  destruct (question_llm w (llm_calls s)) as [resp_dict|llm_response|];
    [|done..].
  assert (free_plan_question_expose_count
            (for_each resp_dict (process_q_set subscription_plan db_pk)
               (after_call chunk s)).1 ≤ 5) as Hloop.
  { apply (for_each_inv (λ s, free_plan_question_expose_count s ≤ 5));
      [|done].
    intros q s0 Hs0.
    destruct (process_q_set_cases subscription_plan db_pk q s0)
      as [(key & _ & ->)|[(qa & _ & _ & ->)|(qa & p & _ & _ & ->)]];
      simpl; auto using exposed_after_le. }
  destruct (for_each resp_dict _ _) as [s1 [e|[]]]; done.
Qed.

(** X8.  The counter of exposed questions never passes the FREE cap of
    five, whatever the plan.  At the end of a FREE run it is the smaller of
    five and the number of generated questions; a PRO run leaves it at
    zero. *)
Theorem exposure_counter_is_capped
    (w : world) (s3_key : string) (db_pk : Z) :
  (∀ subscription_plan,
     free_plan_question_expose_count
       (run w (request s3_key db_pk subscription_plan)).1 ≤ 5)
  ∧ (let s := (run w (request s3_key db_pk (SubscriptionPlanType_value FREE))).1 in
     free_plan_question_expose_count s
     = total_generated_question_count s `min` 5)
  ∧ free_plan_question_expose_count
      (run w (request s3_key db_pk (SubscriptionPlanType_value PRO))).1 = 0.
Proof.
  assert (∀ p,
    let s := (run w (request s3_key db_pk (SubscriptionPlanType_value p))).1 in
    free_plan_question_expose_count s
    = exposure p (total_generated_question_count s)) as Hexposure.
  { intros p. cbv zeta.
    destruct (run_rows w p db_pk s3_key) as (_ & -> & _).
    destruct (run_tail w s3_key db_pk (SubscriptionPlanType_value p))
      as (t & _ & _ & -> & _).
    destruct (question_loop_rows w p db_pk s3_key) as (_ & _ & Htotal & -> & _).
    by rewrite Htotal. }
  split; [|split].
  - intros subscription_plan.
    destruct (run_tail w s3_key db_pk subscription_plan) as (t & _ & _ & -> & _).
    apply question_loop_exposed.
  - apply (Hexposure FREE).
  - apply (Hexposure PRO).
Qed.

(** ** How many chunks *)

Lemma range_from_length fuel i stop step :
  0 < step →
  stop ≤ i + fuel * step →
  length (range_from fuel i stop step) = (stop - i + step - 1) / step.
Proof.
  intros Hstep. revert i. induction fuel as [|fuel IH]; intros i Hfuel; simpl.
  - replace (stop - i) with 0 by lia. symmetry. apply Nat.div_small. lia.
  - destruct (Nat.ltb_spec i stop) as [Hi|Hi]; simpl.
    + rewrite IH by lia.
      replace (stop - i + step - 1) with (stop - i - 1 + 1 * step) by lia.
      rewrite Nat.div_add by lia. rewrite Nat.add_1_r. f_equal.
      destruct (Nat.le_gt_cases step (stop - i)) as [Hge|Hlt].
      * f_equal. lia.
      * replace (stop - (i + step)) with 0 by lia.
        rewrite !Nat.div_small; lia.
    + replace (stop - i) with 0 by lia. symmetry. apply Nat.div_small. lia.
Qed.



(** ** How long the summary input *)

Lemma summary_input_loop_bound chunks summary_input :
  String.length summary_input ≤ 2000 →
  String.length (summary_input_loop summary_input chunks) ≤ 2600.
Proof.
  revert summary_input.
  induction chunks as [|chunk chunks IH]; intros summary_input Hlen; simpl.
  - lia.
  - destruct (Nat.ltb_spec 2000
                (String.length (summary_input +:+ str_take 600 chunk)))
      as [Hlong|Hshort]; [|by apply IH].
    rewrite str_app_length, str_take_length. lia.
Qed.

(** X12.  Whatever the chunks, the summary input has at most 2600
    characters: the loop appends at most 600 at a time and stops once the
    total has passed 2000. *)
Theorem summary_input_is_bounded (chunks : list string) :
  String.length (build_summary_input chunks) ≤ 2600.
Proof. apply summary_input_loop_bound. simpl. lia. Qed.

Lemma str_app_nil_l s : "" +:+ s = s.
Proof. reflexivity. Qed.

(** On a list in which every chunk but the last has 1100 characters the
    loop takes the prefixes of the first four chunks. *)
Lemma summary_input_of_full_chunks chunks :
  (∀ k c, chunks !! k = Some c → k + 1 < length chunks →
          String.length c = 1100) →
  build_summary_input chunks
  = str_concat (map (str_take 600) (take 4 chunks)).
Proof.
  intros Hfull. unfold build_summary_input.
  assert (∀ c, String.length (str_take 600 c) ≤ 600) as Hle
    by (intros c; rewrite str_take_length; lia).
  destruct chunks as [|c1 [|c2 [|c3 [|c4 rest]]]]; simpl;
    rewrite ?str_app_nil_l.
  - done.
  - pose proof (Hle c1).
    destruct (Nat.ltb_spec 2000 (String.length (str_take 600 c1))); [lia|].
    by rewrite str_app_nil_r.
  - pose proof (Hle c1). pose proof (Hle c2).
    destruct (Nat.ltb_spec 2000 (String.length (str_take 600 c1))); [lia|].
    destruct (Nat.ltb_spec 2000
                (String.length (str_take 600 c1 +:+ str_take 600 c2)));
      [rewrite str_app_length in *; lia|].
    by rewrite str_app_nil_r.
  - pose proof (Hle c1). pose proof (Hle c2). pose proof (Hle c3).
    destruct (Nat.ltb_spec 2000 (String.length (str_take 600 c1))); [lia|].
    destruct (Nat.ltb_spec 2000
                (String.length (str_take 600 c1 +:+ str_take 600 c2)));
      [rewrite str_app_length in *; lia|].
    destruct (Nat.ltb_spec 2000
                (String.length
                   ((str_take 600 c1 +:+ str_take 600 c2) +:+ str_take 600 c3)));
      [rewrite !str_app_length in *; lia|].
    by rewrite str_app_nil_r, str_app_assoc.
  - pose proof (Hle c1). pose proof (Hle c2). pose proof (Hle c3).
    destruct (Nat.ltb_spec 2000 (String.length (str_take 600 c1))); [lia|].
    destruct (Nat.ltb_spec 2000
                (String.length (str_take 600 c1 +:+ str_take 600 c2)));
      [rewrite str_app_length in *; lia|].
    destruct (Nat.ltb_spec 2000
                (String.length
                   ((str_take 600 c1 +:+ str_take 600 c2) +:+ str_take 600 c3)));
      [rewrite !str_app_length in *; lia|].
    rewrite str_app_nil_r, <- !str_app_assoc.
    destruct (Nat.ltb_spec 2000
                (String.length
                   (((str_take 600 c1 +:+ str_take 600 c2) +:+ str_take 600 c3)
                    +:+ str_take 600 c4))) as [Hlong|Hshort]; [done|].
    destruct rest as [|c5 rest]; [done|]. exfalso.
    pose proof (Hfull 0 c1 eq_refl) as Hc1.
    pose proof (Hfull 1 c2 eq_refl) as Hc2.
    pose proof (Hfull 2 c3 eq_refl) as Hc3.
    pose proof (Hfull 3 c4 eq_refl) as Hc4.
    simpl in Hc1, Hc2, Hc3, Hc4.
    rewrite !str_app_length, !str_take_length in Hshort. lia.
Qed.

(** X13.  On the chunks of a document the summary input is made of the
    first 600 characters of each of the first four chunks (of all of them
    when there are fewer): later chunks never reach the summary prompt, and
    the input has at most 2400 characters. *)
Theorem summary_reads_first_four_chunks (content : string) :
  let chunks := chunks_of content in
  build_summary_input chunks
  = str_concat (map (str_take 600) (take 4 chunks))
  ∧ String.length (build_summary_input chunks) ≤ 2400.
Proof.
  cbv zeta.
  assert (build_summary_input (chunks_of content)
          = str_concat (map (str_take 600) (take 4 (chunks_of content))))
    as Heq.
  { apply summary_input_of_full_chunks. intros k c Hk Hlast.
    destruct (slice_all_from CHUNK_SIZE content ltac:(unfold CHUNK_SIZE; lia)
                (String.length content) 0 ltac:(unfold CHUNK_SIZE; lia))
      as [_ Hpieces].
    by destruct (Hpieces k c Hk) as (_ & _ & ->). }
  split; [done|]. rewrite Heq.
  assert (∀ l : list string,
            String.length (str_concat (map (str_take 600) l)) ≤ 600 * length l)
    as Hsum.
  { induction l as [|c l IH]; simpl; [lia|].
    rewrite str_app_length, str_take_length. lia. }
  etrans; [apply Hsum|]. rewrite length_take. lia.
Qed.

(** ** A body without a field *)

Lemma handler_missing_field_witness :
  ∃ msg, run w_empty body_without_plan = (initial_state, inl (ValueError msg)).
Proof.
  apply (handler_missing_field w_empty body_without_plan).
  right; right. reflexivity.
Defined.

(** ** Empty answers *)

(** X14.  When the model answers every chunk of a non-empty document with
    the empty list, each chunk counts as a success although nothing was
    generated: whatever the plan string (it is never looked at), the run
    sends one prompt with an empty window and one commit per chunk, then
    writes PROCESSED and goes on to the summary; it inserts and reports
    nothing for the chunks. *)
Theorem empty_answers_are_successes
    (w : world) (s3_key : string) (db_pk : Z) (subscription_plan : string) :
  (∀ k, question_llm w k = Parsed []) →
  chunks_of (s3_object w s3_key) ≠ [] →
  let chunks := chunks_of (s3_object w s3_key) in
  trace (run w (request s3_key db_pk subscription_plan)).1
  = flat_map empty_answer_events chunks
    ++ [ExecuteQuery (UpdateDocumentStatus PROCESSED db_pk); Commit]
    ++ summary_events w db_pk (build_summary_input chunks).
Proof.
  intros Hempty Hchunks. cbv zeta.
  assert (let s := after_questions w s3_key db_pk subscription_plan in
          trace s = flat_map empty_answer_events (chunks_of (s3_object w s3_key))
          ∧ prev_questions s = []
          ∧ failed_at_least_once s = false
          ∧ (chunks_of (s3_object w s3_key) ≠ [] →
             success_at_least_once s = true)) as (Htrace & _ & Hfailed & Hsuccess).
  { unfold after_questions.
    apply (for_each_prefix
             (λ pre s, trace s = flat_map empty_answer_events pre
                       ∧ prev_questions s = []
                       ∧ failed_at_least_once s = false
                       ∧ (pre ≠ [] → success_at_least_once s = true))
             (generate_questions w subscription_plan db_pk)
             (chunks_of (s3_object w s3_key)) [] initial_state); [|done].
    intros pre chunk s (Ht & Hwin & Hf & _).
    rewrite generate_questions_cases, Hempty. simpl.
    rewrite Ht, Hwin, flat_map_app, <- app_assoc. simpl. done. }
  rewrite run_cases. unfold status_of_flags.
  rewrite (Hsuccess Hchunks), Hfailed. cbn [negb fst trace set_trace].
  by rewrite Htrace.
Qed.

Lemma empty_answers_are_successes_witness :
  let chunks := chunks_of (s3_object w_empty_answers "k") in
  trace (run w_empty_answers (request "k" 7 "BASIC")).1
  = flat_map empty_answer_events chunks
    ++ [ExecuteQuery (UpdateDocumentStatus PROCESSED 7); Commit]
    ++ summary_events w_empty_answers 7 (build_summary_input chunks).
Proof.
  apply (empty_answers_are_successes w_empty_answers "k" 7 "BASIC").
  - reflexivity.
  - by vm_compute.
Defined.

(** ** Short documents *)

Lemma chunks_of_short content :
  0 < String.length content ≤ 1100 → chunks_of content = [content].
Proof.
  intros Hlen.
  destruct (slice_all_from CHUNK_SIZE content ltac:(unfold CHUNK_SIZE; lia)
              (String.length content) 0 ltac:(unfold CHUNK_SIZE; lia))
    as [Hcat _].
  assert (length (chunks_of content) = 1) as Hone.
  { unfold chunks_of, slice_all.
    rewrite length_map, range_from_length
      by (unfold CHUNK_SIZE; lia).
    unfold CHUNK_SIZE. rewrite Nat.sub_0_r.
    replace (String.length content + 1100 - 1)
      with (String.length content - 1 + 1 * 1100) by lia.
    rewrite Nat.div_add, Nat.div_small by lia. done. }
  fold (chunks_of content) in Hcat.
  destruct (chunks_of content) as [|c [|c' rest]]; try done.
  simpl in Hcat. rewrite str_app_nil_r in Hcat. by rewrite Hcat.
Qed.

(** X15.  For a document of at most 1100 characters, hence of at most one
    chunk, the summary input is the first 600 characters of the document
    (the whole document when it has at most 600). *)
Theorem short_document_summary_input (content : string) :
  String.length content ≤ 1100 →
  build_summary_input (chunks_of content) = str_take 600 content.
Proof.
  intros Hlen. destruct content as [|c content]; [done|].
  rewrite chunks_of_short by (simpl in *; lia).
  unfold build_summary_input. cbn [summary_input_loop].
  rewrite str_app_nil_l. by destruct (2000 <? _).
Qed.

Lemma short_document_summary_input_witness :
  build_summary_input (chunks_of (str_repeat "a" 700))
  = str_take 600 (str_repeat "a" 700).
Proof.
  apply (short_document_summary_input (str_repeat "a" 700)).
  vm_compute. lia.
Defined.
